(** * kruise-tools: polymorphic helpers

    A shallow embedding of [pkg/internal/polymorphichelpers]:
    - [rollout_status.go]: the five [StatusViewer] implementations;
    - [helpers.go]: [GetFirstPod], [findEnv], [updateEnv] and
      [UpdateResourceEnv].

    Go values are modelled as follows.  [int32] and [int64] are [Z]; the only
    arithmetic the code performs is [int32] subtraction, whose wrap-around is
    written out in [Int32.sub].  A pointer field ([*int32], [*T]) is an
    [option]; a struct is a record, living in a module named after its Go type
    so that the Go field names can be kept.  A Go [error] built by
    [fmt.Errorf] is a constructor of [error] carrying the arguments of the
    format.  [sets.String] is a [gset string].  [sort.Sort] is library code
    that reaches the slice through [Less] and [Swap] only: it is the sequence
    of swaps of an algorithm that the model takes as an argument. *)

From Stdlib Require Import ZArith String Ascii List DecimalString Lia Bool.
From Stdlib Require Import Sorting.Permutation Sorting.Sorted.
From stdpp Require Import base gmap sets list strings.

Open Scope string_scope.
Open Scope list_scope.
Open Scope Z_scope.

(** ** Machine integers *)

Module Int32.

Definition min_int : Z := - 2 ^ 31.
Definition max_int : Z := 2 ^ 31 - 1.

Definition in_range (z : Z) : Prop := min_int <= z <= max_int.

(** Two's complement reduction of a mathematical integer to [int32]. *)
Definition wrap (z : Z) : Z := (z + 2 ^ 31) mod 2 ^ 32 - 2 ^ 31.

(** Go's [a - b] on [int32] operands. *)
Definition sub (a b : Z) : Z := wrap (a - b).

End Int32.

(** ** Formatting verbs of [fmt] *)

(** [%d]: decimal rendering, with a leading minus sign for negatives. *)
Definition fmt_d (z : Z) : string := NilZero.string_of_int (Z.to_int z).

(** The line feed that ends every progress message. *)
Definition nl : string := String (ascii_of_nat 10) EmptyString.

(** ** API types *)

Module metav1.
Module ObjectMeta.
Record t := mk { Name : string; Namespace : string; Generation : Z }.
End ObjectMeta.

Module ListOptions.
Record t := mk { LabelSelector : string; ResourceVersion : string }.
End ListOptions.
End metav1.

Module intstr.
(** [intstr.IntOrString]: [Type] is [Int] (0) or [String] (1); reading
    [IntVal] of a string-typed value yields the zero it was left at. *)
Inductive Kind := Int | String_.
Module IntOrString.
Record t := mk { Type_ : Kind; IntVal : Z; StrVal : string }.
End IntOrString.
Definition FromInt (n : Z) : IntOrString.t := IntOrString.mk Int n "".
Definition FromString (s : string) : IntOrString.t := IntOrString.mk String_ 0 s.
End intstr.

Module appsv1.

Definition RollingUpdateDaemonSetStrategyType : string := "RollingUpdate".
Definition OnDeleteDaemonSetStrategyType : string := "OnDelete".
Definition RollingUpdateStatefulSetStrategyType : string := "RollingUpdate".
Definition OnDeleteStatefulSetStrategyType : string := "OnDelete".
Definition DeploymentProgressing : string := "Progressing".
Definition DeploymentAvailable : string := "Available".

Module DeploymentCondition.
Record t := mk { Type_ : string; Status : string; Reason : string; Message : string }.
End DeploymentCondition.

Module DeploymentSpec.
Record t := mk { Replicas : option Z }.
End DeploymentSpec.

Module DeploymentStatus.
Record t := mk {
  ObservedGeneration : Z;
  Replicas : Z;
  UpdatedReplicas : Z;
  ReadyReplicas : Z;
  AvailableReplicas : Z;
  UnavailableReplicas : Z;
  Conditions : list DeploymentCondition.t
}.
End DeploymentStatus.

Module Deployment.
Record t := mk {
  ObjectMeta : metav1.ObjectMeta.t;
  Spec : DeploymentSpec.t;
  Status : DeploymentStatus.t
}.
Definition Name (d : t) : string := metav1.ObjectMeta.Name (ObjectMeta d).
Definition Generation (d : t) : Z := metav1.ObjectMeta.Generation (ObjectMeta d).
End Deployment.

Module DaemonSetUpdateStrategy.
Record t := mk { Type_ : string }.
End DaemonSetUpdateStrategy.

Module DaemonSetSpec.
Record t := mk { UpdateStrategy : DaemonSetUpdateStrategy.t }.
End DaemonSetSpec.

Module DaemonSetStatus.
Record t := mk {
  ObservedGeneration : Z;
  CurrentNumberScheduled : Z;
  DesiredNumberScheduled : Z;
  UpdatedNumberScheduled : Z;
  NumberReady : Z;
  NumberAvailable : Z
}.
End DaemonSetStatus.

Module DaemonSet.
Record t := mk {
  ObjectMeta : metav1.ObjectMeta.t;
  Spec : DaemonSetSpec.t;
  Status : DaemonSetStatus.t
}.
Definition Name (d : t) : string := metav1.ObjectMeta.Name (ObjectMeta d).
Definition Generation (d : t) : Z := metav1.ObjectMeta.Generation (ObjectMeta d).
End DaemonSet.

Module RollingUpdateStatefulSetStrategy.
Record t := mk { Partition : option Z }.
End RollingUpdateStatefulSetStrategy.

Module StatefulSetUpdateStrategy.
Record t := mk {
  Type_ : string;
  RollingUpdate : option RollingUpdateStatefulSetStrategy.t
}.
End StatefulSetUpdateStrategy.

Module StatefulSetSpec.
Record t := mk {
  Replicas : option Z;
  UpdateStrategy : StatefulSetUpdateStrategy.t
}.
End StatefulSetSpec.

Module StatefulSetStatus.
Record t := mk {
  ObservedGeneration : Z;
  Replicas : Z;
  ReadyReplicas : Z;
  CurrentReplicas : Z;
  UpdatedReplicas : Z;
  CurrentRevision : string;
  UpdateRevision : string
}.
End StatefulSetStatus.

Module StatefulSet.
Record t := mk {
  ObjectMeta : metav1.ObjectMeta.t;
  Spec : StatefulSetSpec.t;
  Status : StatefulSetStatus.t
}.
Definition Generation (s : t) : Z := metav1.ObjectMeta.Generation (ObjectMeta s).
End StatefulSet.

End appsv1.

Module corev1.

Module EnvVar.
(** [ValueFrom] is a pointer to an [EnvVarSource]; only its presence and
    an opaque description are kept. *)
Record t := mk { Name : string; Value : string; ValueFrom : option string }.
End EnvVar.

Module Container.
Record t := mk {
  Name : string;
  Image : string;
  Command : list string;
  Args : list string;
  Env : list EnvVar.t
}.
End Container.

Module PodSpec.
Record t := mk {
  InitContainers : list Container.t;
  Containers : list Container.t;
  RestartPolicy : string;
  NodeName : string
}.
End PodSpec.

Module PodTemplateSpec.
Record t := mk { ObjectMeta : metav1.ObjectMeta.t; Spec : PodSpec.t }.
End PodTemplateSpec.

Module Pod.
Record t := mk {
  ObjectMeta : metav1.ObjectMeta.t;
  CreationTimestamp : Z;
  Spec : PodSpec.t;
  Phase : string
}.
End Pod.

Module PodList.
Record t := mk { ResourceVersion : string; Items : list Pod.t }.
End PodList.

End corev1.

Module kruiseappsv1alpha1.

Definition RecreateCloneSetUpdateStrategyType : string := "ReCreate".
Definition InPlaceIfPossibleCloneSetUpdateStrategyType : string := "InPlaceIfPossible".
Definition InPlaceOnlyCloneSetUpdateStrategyType : string := "InPlaceOnly".

Module CloneSetUpdateStrategy.
Record t := mk {
  Type_ : string;
  Partition : option intstr.IntOrString.t;
  Paused : bool
}.
End CloneSetUpdateStrategy.

Module CloneSetSpec.
Record t := mk {
  Replicas : option Z;
  Template : corev1.PodTemplateSpec.t;
  UpdateStrategy : CloneSetUpdateStrategy.t
}.
End CloneSetSpec.

Module CloneSetStatus.
Record t := mk {
  ObservedGeneration : Z;
  Replicas : Z;
  ReadyReplicas : Z;
  AvailableReplicas : Z;
  UpdatedReplicas : Z;
  UpdatedReadyReplicas : Z;
  UpdateRevision : string;
  CurrentRevision : string
}.
End CloneSetStatus.

Module CloneSet.
Record t := mk {
  ObjectMeta : metav1.ObjectMeta.t;
  Spec : CloneSetSpec.t;
  Status : CloneSetStatus.t
}.
Definition Generation (s : t) : Z := metav1.ObjectMeta.Generation (ObjectMeta s).
End CloneSet.

End kruiseappsv1alpha1.

Module kruiseappsv1beta1.

Module RollingUpdateStatefulSetStrategy.
Record t := mk { Partition : option Z; Paused : bool }.
End RollingUpdateStatefulSetStrategy.

Module StatefulSetUpdateStrategy.
Record t := mk {
  Type_ : string;
  RollingUpdate : option RollingUpdateStatefulSetStrategy.t
}.
End StatefulSetUpdateStrategy.

Module StatefulSetSpec.
Record t := mk {
  Replicas : option Z;
  Template : corev1.PodTemplateSpec.t;
  UpdateStrategy : StatefulSetUpdateStrategy.t
}.
End StatefulSetSpec.

Module StatefulSetStatus.
Record t := mk {
  ObservedGeneration : Z;
  Replicas : Z;
  ReadyReplicas : Z;
  AvailableReplicas : Z;
  CurrentReplicas : Z;
  UpdatedReplicas : Z;
  CurrentRevision : string;
  UpdateRevision : string
}.
End StatefulSetStatus.

Module StatefulSet.
Record t := mk {
  ObjectMeta : metav1.ObjectMeta.t;
  Spec : StatefulSetSpec.t;
  Status : StatefulSetStatus.t
}.
Definition Generation (s : t) : Z := metav1.ObjectMeta.Generation (ObjectMeta s).
End StatefulSet.

End kruiseappsv1beta1.

(** ** Errors and results *)

(** The errors the package builds with [fmt.Errorf] or passes on from its
    collaborators, tagged by the format that builds them:
    - [ConvertError]: ["failed to convert %T to %T: %v"];
    - [RevisionUnreadable]: ["cannot get the revision of deployment %q: %v"];
    - [RevisionMismatch]: ["desired revision (%d) is different from the
      running revision (%d)"];
    - [ProgressDeadlineExceeded]: ["deployment %q exceeded its progress
      deadline"];
    - [UnsupportedStrategy]: ["rollout status is only available for %s
      strategy type"];
    - [ClientError]: an error returned by the pod client;
    - [ErrWaitTimeout], [ErrWatchClosed]: the two errors of
      [watchtools.UntilWithoutRetry];
    - [NotAPodEvent]: ["%#v is not a pod event"]. *)
Inductive error : Type :=
| ConvertError (cause : string)
| RevisionUnreadable (name cause : string)
| RevisionMismatch (desired running : Z)
| ProgressDeadlineExceeded (name : string)
| UnsupportedStrategy (expected : string)
| ClientError (cause : string)
| ErrWaitTimeout
| ErrWatchClosed
| NotAPodEvent.

(** What [Status] returns: [(message, done, err)]. *)
Definition result : Type := string * bool * option error.

Definition message (r : result) : string := fst (fst r).
Definition done (r : result) : bool := snd (fst r).
Definition err (r : result) : option error := snd r.

(** A call either returns or panics on a nil pointer dereference. *)
Inductive outcome : Type :=
| Return (r : result)
| Panic.

(** The outcome of [runtime.DefaultUnstructuredConverter.FromUnstructured]:
    the typed object, or the cause of the failure. *)
Definition converted (T : Type) : Type := (string + T)%type.

(** ** Helpers of [k8s.io/kubectl/pkg/util/deployment] *)

Module deploymentutil.

Definition TimedOutReason : string := "ProgressDeadlineExceeded".

(** [GetDeploymentCondition] returns the first condition of the given type,
    [None] standing for [nil]. *)
Definition GetDeploymentCondition (status : appsv1.DeploymentStatus.t) (condType : string)
  : option appsv1.DeploymentCondition.t :=
  List.find (fun c => String.eqb (appsv1.DeploymentCondition.Type_ c) condType)
            (appsv1.DeploymentStatus.Conditions status).

End deploymentutil.

(** ** rollout_status.go *)

Section StatusViewers.

(** [%q]: the Go-quoted form of a string ([strconv.Quote]). *)
Variable fmt_q : string -> string.

(** [deploymentutil.Revision]: the revision recorded in the deployment's
    annotations, or the cause for which it cannot be read. *)
Variable Revision : appsv1.Deployment.t -> string + Z.

Import appsv1.

(** [(s *DeploymentStatusViewer) Status] *)
Definition DeploymentStatusViewer_Status (obj : converted Deployment.t) (revision : Z) : result :=
  match obj with
  | inl cause => ("", false, Some (ConvertError cause))
  | inr deployment =>
    let status := Deployment.Status deployment in
    let spec := Deployment.Spec deployment in
    let revisionCheck : option error :=
      if 0 <? revision then
        match Revision deployment with
        | inl cause => Some (RevisionUnreadable (Deployment.Name deployment) cause)
        | inr deploymentRev =>
          if negb (revision =? deploymentRev)
          then Some (RevisionMismatch revision deploymentRev)
          else None
        end
      else None in
    match revisionCheck with
    | Some e => ("", false, Some e)
    | None =>
      if Deployment.Generation deployment <=? DeploymentStatus.ObservedGeneration status then
        let cond := deploymentutil.GetDeploymentCondition status DeploymentProgressing in
        if match cond with
           | Some c => String.eqb (DeploymentCondition.Reason c) deploymentutil.TimedOutReason
           | None => false
           end
        then ("", false, Some (ProgressDeadlineExceeded (Deployment.Name deployment)))
        else match (match DeploymentSpec.Replicas spec with
                    | Some replicas =>
                      if DeploymentStatus.UpdatedReplicas status <? replicas
                      then Some replicas else None
                    | None => None
                    end) with
        | Some replicas =>
             ("Waiting for deployment " +:+ fmt_q (Deployment.Name deployment)
              +:+ " rollout to finish: " +:+ fmt_d (DeploymentStatus.UpdatedReplicas status)
              +:+ " out of " +:+ fmt_d replicas
              +:+ " new replicas have been updated..." +:+ nl, false, None)
        | None =>
        if DeploymentStatus.UpdatedReplicas status <? DeploymentStatus.Replicas status
        then ("Waiting for deployment " +:+ fmt_q (Deployment.Name deployment)
              +:+ " rollout to finish: "
              +:+ fmt_d (Int32.sub (DeploymentStatus.Replicas status)
                                  (DeploymentStatus.UpdatedReplicas status))
              +:+ " old replicas are pending termination..." +:+ nl, false, None)
        else if DeploymentStatus.AvailableReplicas status <? DeploymentStatus.UpdatedReplicas status
        then ("Waiting for deployment " +:+ fmt_q (Deployment.Name deployment)
              +:+ " rollout to finish: " +:+ fmt_d (DeploymentStatus.AvailableReplicas status)
              +:+ " of " +:+ fmt_d (DeploymentStatus.UpdatedReplicas status)
              +:+ " updated replicas are available..." +:+ nl, false, None)
        else ("deployment " +:+ fmt_q (Deployment.Name deployment)
              +:+ " successfully rolled out" +:+ nl, true, None)
        end
      else ("Waiting for deployment spec update to be observed..." +:+ nl, false, None)
    end
  end.

(** [(s *DaemonSetStatusViewer) Status]; the revision is ignored. *)
Definition DaemonSetStatusViewer_Status (obj : converted DaemonSet.t) (revision : Z) : result :=
  match obj with
  | inl cause => ("", false, Some (ConvertError cause))
  | inr daemon =>
    let status := DaemonSet.Status daemon in
    if negb (String.eqb (DaemonSetUpdateStrategy.Type_ (DaemonSetSpec.UpdateStrategy (DaemonSet.Spec daemon)))
                        RollingUpdateDaemonSetStrategyType)
    then ("", true, Some (UnsupportedStrategy RollingUpdateStatefulSetStrategyType))
    else if DaemonSet.Generation daemon <=? DaemonSetStatus.ObservedGeneration status then
      if DaemonSetStatus.UpdatedNumberScheduled status <? DaemonSetStatus.DesiredNumberScheduled status
      then ("Waiting for daemon set " +:+ fmt_q (DaemonSet.Name daemon)
            +:+ " rollout to finish: " +:+ fmt_d (DaemonSetStatus.UpdatedNumberScheduled status)
            +:+ " out of " +:+ fmt_d (DaemonSetStatus.DesiredNumberScheduled status)
            +:+ " new pods have been updated..." +:+ nl, false, None)
      else if DaemonSetStatus.NumberAvailable status <? DaemonSetStatus.DesiredNumberScheduled status
      then ("Waiting for daemon set " +:+ fmt_q (DaemonSet.Name daemon)
            +:+ " rollout to finish: " +:+ fmt_d (DaemonSetStatus.NumberAvailable status)
            +:+ " of " +:+ fmt_d (DaemonSetStatus.DesiredNumberScheduled status)
            +:+ " updated pods are available..." +:+ nl, false, None)
      else ("daemon set " +:+ fmt_q (DaemonSet.Name daemon)
            +:+ " successfully rolled out" +:+ nl, true, None)
    else ("Waiting for daemon set spec update to be observed..." +:+ nl, false, None)
  end.

(** [(s *StatefulSetStatusViewer) Status] *)
Definition StatefulSetStatusViewer_Status (obj : converted StatefulSet.t) (revision : Z) : result :=
  match obj with
  | inl cause => ("", false, Some (ConvertError cause))
  | inr sts =>
    let status := StatefulSet.Status sts in
    let spec := StatefulSet.Spec sts in
    let strategy := StatefulSetSpec.UpdateStrategy spec in
    if negb (String.eqb (StatefulSetUpdateStrategy.Type_ strategy) RollingUpdateStatefulSetStrategyType)
    then ("", true, Some (UnsupportedStrategy RollingUpdateStatefulSetStrategyType))
    else if (StatefulSetStatus.ObservedGeneration status =? 0)
            || (StatefulSetStatus.ObservedGeneration status <? StatefulSet.Generation sts)
    then ("Waiting for statefulset spec update to be observed..." +:+ nl, false, None)
    else match (match StatefulSetSpec.Replicas spec with
                | Some replicas =>
                  if StatefulSetStatus.ReadyReplicas status <? replicas
                  then Some replicas else None
                | None => None
                end) with
    | Some replicas =>
         ("Waiting for "
          +:+ fmt_d (Int32.sub replicas (StatefulSetStatus.ReadyReplicas status))
          +:+ " pods to be ready..." +:+ nl, false, None)
    | None =>
      match (if String.eqb (StatefulSetUpdateStrategy.Type_ strategy) RollingUpdateStatefulSetStrategyType
             then StatefulSetUpdateStrategy.RollingUpdate strategy else None) with
      | Some rollingUpdate =>
        match StatefulSetSpec.Replicas spec, RollingUpdateStatefulSetStrategy.Partition rollingUpdate with
        | Some replicas, Some partition =>
          if StatefulSetStatus.UpdatedReplicas status <? Int32.sub replicas partition
          then ("Waiting for partitioned roll out to finish: "
                +:+ fmt_d (StatefulSetStatus.UpdatedReplicas status) +:+ " out of "
                +:+ fmt_d (Int32.sub replicas partition)
                +:+ " new pods have been updated..." +:+ nl, false, None)
          else ("partitioned roll out complete: "
                +:+ fmt_d (StatefulSetStatus.UpdatedReplicas status)
                +:+ " new pods have been updated..." +:+ nl, true, None)
        | _, _ =>
          ("partitioned roll out complete: "
           +:+ fmt_d (StatefulSetStatus.UpdatedReplicas status)
           +:+ " new pods have been updated..." +:+ nl, true, None)
        end
      | None =>
        if negb (String.eqb (StatefulSetStatus.UpdateRevision status)
                            (StatefulSetStatus.CurrentRevision status))
        then ("waiting for statefulset rolling update to complete "
              +:+ fmt_d (StatefulSetStatus.UpdatedReplicas status) +:+ " pods at revision "
              +:+ StatefulSetStatus.UpdateRevision status +:+ "..." +:+ nl, false, None)
        else ("statefulset rolling update complete "
              +:+ fmt_d (StatefulSetStatus.CurrentReplicas status) +:+ " pods at revision "
              +:+ StatefulSetStatus.CurrentRevision status +:+ "..." +:+ nl, true, None)
      end
    end
  end.

(** [(s *CloneSetStatusViewer) Status] *)
Definition CloneSetStatusViewer_Status
  (obj : converted kruiseappsv1alpha1.CloneSet.t) (revision : Z) : result :=
  match obj with
  | inl cause => ("", false, Some (ConvertError cause))
  | inr cs =>
    let status := kruiseappsv1alpha1.CloneSet.Status cs in
    let spec := kruiseappsv1alpha1.CloneSet.Spec cs in
    let strategy := kruiseappsv1alpha1.CloneSetSpec.UpdateStrategy spec in
    match (if String.eqb (kruiseappsv1alpha1.CloneSetUpdateStrategy.Type_ strategy)
                         kruiseappsv1alpha1.InPlaceOnlyCloneSetUpdateStrategyType
              || String.eqb (kruiseappsv1alpha1.CloneSetUpdateStrategy.Type_ strategy)
                            kruiseappsv1alpha1.InPlaceIfPossibleCloneSetUpdateStrategyType
           then
             match kruiseappsv1alpha1.CloneSetSpec.Replicas spec,
                   kruiseappsv1alpha1.CloneSetUpdateStrategy.Partition strategy with
             | Some replicas, Some partition =>
               if kruiseappsv1alpha1.CloneSetStatus.UpdatedReplicas status
                  <? Int32.sub replicas (intstr.IntOrString.IntVal partition)
               then Some (Int32.sub replicas (intstr.IntOrString.IntVal partition))
               else None
             | _, _ => None
             end
           else None) with
    | Some target =>
      ("Waiting for partitioned roll out to finish: "
       +:+ fmt_d (kruiseappsv1alpha1.CloneSetStatus.UpdatedReplicas status) +:+ " out of "
       +:+ fmt_d target +:+ " new pods have been updated..." +:+ nl, false, None)
    | None =>
      if (kruiseappsv1alpha1.CloneSetStatus.ObservedGeneration status =? 0)
         || (kruiseappsv1alpha1.CloneSetStatus.ObservedGeneration status
             <? kruiseappsv1alpha1.CloneSet.Generation cs)
      then ("Waiting for CloneSet spec update to be observed..." +:+ nl, false, None)
      else match (match kruiseappsv1alpha1.CloneSetSpec.Replicas spec with
                  | Some replicas =>
                    if kruiseappsv1alpha1.CloneSetStatus.ReadyReplicas status <? replicas
                    then Some replicas else None
                  | None => None
                  end) with
      | Some replicas =>
        ("Waiting for "
         +:+ fmt_d (Int32.sub replicas (kruiseappsv1alpha1.CloneSetStatus.ReadyReplicas status))
         +:+ " pods to be ready..." +:+ nl, false, None)
      | None =>
        ("CloneSet rolling update complete "
         +:+ fmt_d (kruiseappsv1alpha1.CloneSetStatus.AvailableReplicas status)
         +:+ " pods at revision "
         +:+ kruiseappsv1alpha1.CloneSetStatus.UpdateRevision status +:+ "..." +:+ nl,
         true, None)
      end
    end
  end.

(** [(s *AdvancedStatefulSetStatusViewer) Status].  The partition check reads
    [asts.Spec.UpdateStrategy.RollingUpdate.Partition] as soon as
    [asts.Spec.Replicas] is set, without testing [RollingUpdate] for nil: with
    no rolling-update sub-policy the call panics. *)
Definition AdvancedStatefulSetStatusViewer_Status
  (obj : converted kruiseappsv1beta1.StatefulSet.t) (revision : Z) : outcome :=
  match obj with
  | inl cause => Return ("", false, Some (ConvertError cause))
  | inr asts =>
    let status := kruiseappsv1beta1.StatefulSet.Status asts in
    let spec := kruiseappsv1beta1.StatefulSet.Spec asts in
    let strategy := kruiseappsv1beta1.StatefulSetSpec.UpdateStrategy spec in
    let afterPartition : result :=
      if (kruiseappsv1beta1.StatefulSetStatus.ObservedGeneration status =? 0)
         || (kruiseappsv1beta1.StatefulSetStatus.ObservedGeneration status
             <? kruiseappsv1beta1.StatefulSet.Generation asts)
      then ("Waiting for Advanced StatefulSet spec update to be observed..." +:+ nl, false, None)
      else match (match kruiseappsv1beta1.StatefulSetSpec.Replicas spec with
                  | Some replicas =>
                    if kruiseappsv1beta1.StatefulSetStatus.ReadyReplicas status <? replicas
                    then Some replicas else None
                  | None => None
                  end) with
      | Some replicas =>
        ("Waiting for "
         +:+ fmt_d (Int32.sub replicas (kruiseappsv1beta1.StatefulSetStatus.ReadyReplicas status))
         +:+ " pods to be ready..." +:+ nl, false, None)
      | None =>
        ("Advanced StatefulSet rolling update complete "
         +:+ fmt_d (kruiseappsv1beta1.StatefulSetStatus.AvailableReplicas status)
         +:+ " pods at revision "
         +:+ kruiseappsv1beta1.StatefulSetStatus.UpdateRevision status +:+ "..." +:+ nl,
         true, None)
      end in
    if String.eqb (kruiseappsv1beta1.StatefulSetUpdateStrategy.Type_ strategy)
                  RollingUpdateStatefulSetStrategyType
    then
      match kruiseappsv1beta1.StatefulSetSpec.Replicas spec with
      | Some replicas =>
        match kruiseappsv1beta1.StatefulSetUpdateStrategy.RollingUpdate strategy with
        | None => Panic
        | Some rollingUpdate =>
          match kruiseappsv1beta1.RollingUpdateStatefulSetStrategy.Partition rollingUpdate with
          | Some partition =>
            if kruiseappsv1beta1.StatefulSetStatus.UpdatedReplicas status
               <? Int32.sub replicas partition
            then Return
                   ("Waiting for partitioned roll out to finish:"
                    +:+ fmt_d (kruiseappsv1beta1.StatefulSetStatus.UpdatedReplicas status)
                    +:+ " out of " +:+ fmt_d (Int32.sub replicas partition)
                    +:+ " new pods has been updated..." +:+ nl, false, None)
            else Return afterPartition
          | None => Return afterPartition
          end
        end
      | None => Return afterPartition
      end
    else Return afterPartition
  end.

(** The revision requested by the caller is accepted by the Deployment
    evaluator: none is requested, or it is the one the deployment records. *)
Definition revision_accepted (d : Deployment.t) (revision : Z) : Prop :=
  revision <= 0 \/ Revision d = inr revision.

(** The Progressing condition reports the progress deadline as exceeded. *)
Definition progress_deadline_exceeded (d : Deployment.t) : Prop :=
  exists c,
    deploymentutil.GetDeploymentCondition (Deployment.Status d) DeploymentProgressing = Some c
    /\ DeploymentCondition.Reason c = deploymentutil.TimedOutReason.

End StatusViewers.

(** ** Snapshots that differ in their revision markers only *)

Definition StatefulSet_setRevisions (sts : appsv1.StatefulSet.t) (current update : string)
  : appsv1.StatefulSet.t :=
  let status := appsv1.StatefulSet.Status sts in
  appsv1.StatefulSet.mk (appsv1.StatefulSet.ObjectMeta sts) (appsv1.StatefulSet.Spec sts)
    (appsv1.StatefulSetStatus.mk
       (appsv1.StatefulSetStatus.ObservedGeneration status)
       (appsv1.StatefulSetStatus.Replicas status)
       (appsv1.StatefulSetStatus.ReadyReplicas status)
       (appsv1.StatefulSetStatus.CurrentReplicas status)
       (appsv1.StatefulSetStatus.UpdatedReplicas status)
       current update).

Definition CloneSet_setRevisions (cs : kruiseappsv1alpha1.CloneSet.t) (current update : string)
  : kruiseappsv1alpha1.CloneSet.t :=
  let status := kruiseappsv1alpha1.CloneSet.Status cs in
  kruiseappsv1alpha1.CloneSet.mk (kruiseappsv1alpha1.CloneSet.ObjectMeta cs)
    (kruiseappsv1alpha1.CloneSet.Spec cs)
    (kruiseappsv1alpha1.CloneSetStatus.mk
       (kruiseappsv1alpha1.CloneSetStatus.ObservedGeneration status)
       (kruiseappsv1alpha1.CloneSetStatus.Replicas status)
       (kruiseappsv1alpha1.CloneSetStatus.ReadyReplicas status)
       (kruiseappsv1alpha1.CloneSetStatus.AvailableReplicas status)
       (kruiseappsv1alpha1.CloneSetStatus.UpdatedReplicas status)
       (kruiseappsv1alpha1.CloneSetStatus.UpdatedReadyReplicas status)
       update current).

Definition AdvancedStatefulSet_setRevisions (asts : kruiseappsv1beta1.StatefulSet.t)
  (current update : string) : kruiseappsv1beta1.StatefulSet.t :=
  let status := kruiseappsv1beta1.StatefulSet.Status asts in
  kruiseappsv1beta1.StatefulSet.mk (kruiseappsv1beta1.StatefulSet.ObjectMeta asts)
    (kruiseappsv1beta1.StatefulSet.Spec asts)
    (kruiseappsv1beta1.StatefulSetStatus.mk
       (kruiseappsv1beta1.StatefulSetStatus.ObservedGeneration status)
       (kruiseappsv1beta1.StatefulSetStatus.Replicas status)
       (kruiseappsv1beta1.StatefulSetStatus.ReadyReplicas status)
       (kruiseappsv1beta1.StatefulSetStatus.AvailableReplicas status)
       (kruiseappsv1beta1.StatefulSetStatus.CurrentReplicas status)
       (kruiseappsv1beta1.StatefulSetStatus.UpdatedReplicas status)
       current update).

(** Whether a call that may panic reports the rollout as done without an
    error. *)
Definition outcome_done (o : outcome) : option bool :=
  match o with
  | Return r => Some (done r && bool_decide (err r = None))
  | Panic => None
  end.

(** ** helpers.go: environment variables *)

Definition RestartedEnv : string := "RESTARTED_AT".

(** The zero value [corev1.EnvVar{}]. *)
Definition EnvVar_zero : corev1.EnvVar.t := corev1.EnvVar.mk "" "" None.

(** [findEnv]: the first variable of [env] called [name], and whether there
    is one. *)
Fixpoint findEnv (env : list corev1.EnvVar.t) (name : string) : corev1.EnvVar.t * bool :=
  match env with
  | [] => (EnvVar_zero, false)
  | e :: env' =>
    if String.eqb (corev1.EnvVar.Name e) name then (e, true) else findEnv env' name
  end.

(** The state of the two loops of [updateEnv]: the set [covered] and the
    slice [out]. *)
Definition envState : Type := gset string * list corev1.EnvVar.t.

(** One iteration of [for _, e := range existing]. *)
Definition updateEnv_existing (env : list corev1.EnvVar.t) (st : envState) (e : corev1.EnvVar.t)
  : envState :=
  let '(covered, out) := st in
  if bool_decide (corev1.EnvVar.Name e ∈ covered) then (covered, out)
  else
    let '(newer, ok) := findEnv env (corev1.EnvVar.Name e) in
    if ok then ({[ corev1.EnvVar.Name e ]} ∪ covered, out ++ [newer])
    else (covered, out ++ [e]).

(** One iteration of [for _, e := range env]. *)
Definition updateEnv_env (st : envState) (e : corev1.EnvVar.t) : envState :=
  let '(covered, out) := st in
  if bool_decide (corev1.EnvVar.Name e ∈ covered) then (covered, out)
  else ({[ corev1.EnvVar.Name e ]} ∪ covered, out ++ [e]).

(** [updateEnv] *)
Definition updateEnv (existing env : list corev1.EnvVar.t) (remove : list string)
  : list corev1.EnvVar.t :=
  let covered : gset string := list_to_set remove in
  let st := fold_left (updateEnv_existing env) existing (covered, []) in
  snd (fold_left updateEnv_env env st).

(** ** Reading [updateEnv] loop by loop *)

Definition names (env : list corev1.EnvVar.t) : list string :=
  corev1.EnvVar.Name <$> env.

(** The first loop of [updateEnv], run on [existing] from the set [covered]
    and an empty [out]. *)
Definition existingLoop (env : list corev1.EnvVar.t) (covered : gset string)
  (existing : list corev1.EnvVar.t) : envState :=
  fold_left (updateEnv_existing env) existing (covered, []).

(** The second loop of [updateEnv], run from [covered] and an empty [out]. *)
Definition envLoop (covered : gset string) (env : list corev1.EnvVar.t) : envState :=
  fold_left updateEnv_env env (covered, []).

(** What the first loop puts in [out] for an entry it keeps: the upserted
    variable of that name if there is one, the entry itself otherwise. *)
Definition upsert (env : list corev1.EnvVar.t) (e : corev1.EnvVar.t) : corev1.EnvVar.t :=
  let '(newer, ok) := findEnv env (corev1.EnvVar.Name e) in
  if ok then newer else e.

(** The list [l] with, for each name that [once] selects, its first entry
    of that name only: an entry is dropped when [once] holds of its name and
    an earlier entry has that name. *)
Fixpoint firstOfName (once : string -> bool) (l : list corev1.EnvVar.t) : list corev1.EnvVar.t :=
  match l with
  | [] => []
  | e :: l' =>
    e :: (if once (corev1.EnvVar.Name e)
          then filter (fun x => corev1.EnvVar.Name x <> corev1.EnvVar.Name e) (firstOfName once l')
          else firstOfName once l')
  end.

(** ** helpers.go: the restart marker *)

(** The dynamic types a [runtime.Object] handed to [UpdateResourceEnv] can
    have, among those of this development. *)
Inductive Object : Type :=
| CloneSetObject (obj : kruiseappsv1alpha1.CloneSet.t)
| AdvancedStatefulSetObject (obj : kruiseappsv1beta1.StatefulSet.t)
| DeploymentObject (obj : appsv1.Deployment.t)
| DaemonSetObject (obj : appsv1.DaemonSet.t)
| StatefulSetObject (obj : appsv1.StatefulSet.t)
| PodObject (obj : corev1.Pod.t).

Definition Container_setEnv (c : corev1.Container.t) (env : list corev1.EnvVar.t)
  : corev1.Container.t :=
  corev1.Container.mk (corev1.Container.Name c) (corev1.Container.Image c)
    (corev1.Container.Command c) (corev1.Container.Args c) env.

Definition PodTemplateSpec_setContainers
  (t : corev1.PodTemplateSpec.t) (cs : list corev1.Container.t) : corev1.PodTemplateSpec.t :=
  let spec := corev1.PodTemplateSpec.Spec t in
  corev1.PodTemplateSpec.mk (corev1.PodTemplateSpec.ObjectMeta t)
    (corev1.PodSpec.mk (corev1.PodSpec.InitContainers spec) cs
       (corev1.PodSpec.RestartPolicy spec) (corev1.PodSpec.NodeName spec)).

(** The body shared by the two cases of the type switch:
    [for i := range Containers { tmp := &Containers[i]; tmp.Env = updateEnv(...) }]. *)
Definition restartContainers (addingEnvs : list corev1.EnvVar.t) (t : corev1.PodTemplateSpec.t)
  : corev1.PodTemplateSpec.t :=
  PodTemplateSpec_setContainers t
    (List.map (fun tmp => Container_setEnv tmp (updateEnv (corev1.Container.Env tmp) addingEnvs []))
              (corev1.PodSpec.Containers (corev1.PodTemplateSpec.Spec t))).

Definition CloneSet_setTemplate (obj : kruiseappsv1alpha1.CloneSet.t)
  (t : corev1.PodTemplateSpec.t) : kruiseappsv1alpha1.CloneSet.t :=
  let spec := kruiseappsv1alpha1.CloneSet.Spec obj in
  kruiseappsv1alpha1.CloneSet.mk (kruiseappsv1alpha1.CloneSet.ObjectMeta obj)
    (kruiseappsv1alpha1.CloneSetSpec.mk
       (kruiseappsv1alpha1.CloneSetSpec.Replicas spec) t
       (kruiseappsv1alpha1.CloneSetSpec.UpdateStrategy spec))
    (kruiseappsv1alpha1.CloneSet.Status obj).

Definition AdvancedStatefulSet_setTemplate (obj : kruiseappsv1beta1.StatefulSet.t)
  (t : corev1.PodTemplateSpec.t) : kruiseappsv1beta1.StatefulSet.t :=
  let spec := kruiseappsv1beta1.StatefulSet.Spec obj in
  kruiseappsv1beta1.StatefulSet.mk (kruiseappsv1beta1.StatefulSet.ObjectMeta obj)
    (kruiseappsv1beta1.StatefulSetSpec.mk
       (kruiseappsv1beta1.StatefulSetSpec.Replicas spec) t
       (kruiseappsv1beta1.StatefulSetSpec.UpdateStrategy spec))
    (kruiseappsv1beta1.StatefulSet.Status obj).

(** [UpdateResourceEnv].  The Go function updates the object behind the
    pointer; the model returns the object as it is after the call.  [now]
    stands for [time.Now().Format(time.RFC3339)]. *)
Definition UpdateResourceEnv (now : string) (object : Object) : Object :=
  let restartEnv := corev1.EnvVar.mk RestartedEnv now None in
  let addingEnvs := [] ++ [restartEnv] in
  match object with
  | CloneSetObject obj =>
    CloneSetObject
      (CloneSet_setTemplate obj
         (restartContainers addingEnvs
            (kruiseappsv1alpha1.CloneSetSpec.Template (kruiseappsv1alpha1.CloneSet.Spec obj))))
  | AdvancedStatefulSetObject obj =>
    AdvancedStatefulSetObject
      (AdvancedStatefulSet_setTemplate obj
         (restartContainers addingEnvs
            (kruiseappsv1beta1.StatefulSetSpec.Template (kruiseappsv1beta1.StatefulSet.Spec obj))))
  | _ => object
  end.

(** ** Telling the [Env] fields from the rest of an object *)

(** The pod template with the [Env] of every container emptied. *)
Definition eraseEnv (t : corev1.PodTemplateSpec.t) : corev1.PodTemplateSpec.t :=
  PodTemplateSpec_setContainers t
    (List.map (fun c => Container_setEnv c [])
              (corev1.PodSpec.Containers (corev1.PodTemplateSpec.Spec t))).

(** The [Env] of every container of the pod template, in order. *)
Definition containerEnvs (t : corev1.PodTemplateSpec.t) : list (list corev1.EnvVar.t) :=
  List.map corev1.Container.Env (corev1.PodSpec.Containers (corev1.PodTemplateSpec.Spec t)).

(** An object with the container [Env]s of its pod template emptied, for
    the two types that [UpdateResourceEnv] handles. *)
Definition Object_eraseEnv (object : Object) : Object :=
  match object with
  | CloneSetObject obj =>
    CloneSetObject
      (CloneSet_setTemplate obj
         (eraseEnv (kruiseappsv1alpha1.CloneSetSpec.Template (kruiseappsv1alpha1.CloneSet.Spec obj))))
  | AdvancedStatefulSetObject obj =>
    AdvancedStatefulSetObject
      (AdvancedStatefulSet_setTemplate obj
         (eraseEnv (kruiseappsv1beta1.StatefulSetSpec.Template (kruiseappsv1beta1.StatefulSet.Spec obj))))
  | _ => object
  end.

Definition Object_containerEnvs (object : Object) : list (list corev1.EnvVar.t) :=
  match object with
  | CloneSetObject obj =>
    containerEnvs (kruiseappsv1alpha1.CloneSetSpec.Template (kruiseappsv1alpha1.CloneSet.Spec obj))
  | AdvancedStatefulSetObject obj =>
    containerEnvs (kruiseappsv1beta1.StatefulSetSpec.Template (kruiseappsv1beta1.StatefulSet.Spec obj))
  | _ => []
  end.

(** Whether [UpdateResourceEnv] has a case for the dynamic type. *)
Definition handled (object : Object) : bool :=
  match object with
  | CloneSetObject _ | AdvancedStatefulSetObject _ => true
  | _ => false
  end.

(** ** helpers.go: the first pod of a selector *)

Module watch.

Inductive EventType : Type := Added | Modified | Deleted | Bookmark | Error.

Definition EventType_eqb (a b : EventType) : bool :=
  match a, b with
  | Added, Added | Modified, Modified | Deleted, Deleted
  | Bookmark, Bookmark | Error, Error => true
  | _, _ => false
  end.

(** The [runtime.Object] an event carries: a pod, or something else (the
    [metav1.Status] of an error event, say). *)
Inductive EventObject : Type :=
| IsPod (pod : corev1.Pod.t)
| NotPod (kind : string).

Module Event.
Record t := mk { Type_ : EventType; Object : EventObject }.
End Event.

(** How the wait on a result channel ends when no event satisfies the
    condition: the channel is closed, or the context is done first. *)
Inductive Ending : Type := ChannelClosed | ContextDone.

(** A [watch.Interface], seen from one wait that ends: [ResultChan timeout]
    is the sequence of events the channel delivers before the context built
    from [timeout] is done or the channel is closed, and which of the two
    happens.  A wait that does not end (a channel that stays open and
    silent under a context without deadline) has no value of this type. *)
Module Interface.
Record t := mk { ResultChan : Z -> list Event.t * Ending }.
End Interface.

End watch.

Module watchtools.

(** A [ConditionFunc]: [(done, err)] for an event. *)
Definition ConditionFunc : Type := watch.Event.t -> bool * option error.

(** The inner loop of [UntilWithoutRetry] for its single condition: events
    are read until the condition errs or holds. *)
Fixpoint until (events : list watch.Event.t) (ending : watch.Ending)
  (lastEvent : option watch.Event.t) (condition : ConditionFunc)
  : option watch.Event.t * option error :=
  match events with
  | [] =>
    match ending with
    | watch.ChannelClosed => (lastEvent, Some ErrWatchClosed)
    | watch.ContextDone => (lastEvent, Some ErrWaitTimeout)
    end
  | event :: events' =>
    match condition event with
    | (_, Some e) => (Some event, Some e)
    | (true, None) => (Some event, None)
    | (false, None) => until events' ending (Some event) condition
    end
  end.

(** [UntilWithoutRetry ctx w condition], where [ctx] comes from
    [ContextWithOptionalTimeout(context.Background(), timeout)]. *)
Definition UntilWithoutRetry (timeout : Z) (w : watch.Interface.t) (condition : ConditionFunc)
  : option watch.Event.t * option error :=
  let '(events, ending) := watch.Interface.ResultChan w timeout in
  until events ending None condition.

End watchtools.

Module sort.

Section Sort.
Context {A : Type}.

(** [Swap(i, j)] of a [sort.Interface] over the slice [data].  [sort.Sort]
    calls it with indices below [Len()] only; on any other index the slice
    is left as it is. *)
Definition Swap (i j : nat) (data : list A) : list A :=
  match data !! i, data !! j with
  | Some x, Some y => <[i := y]> (<[j := x]> data)
  | _, _ => data
  end.

(** The slice after a sequence of calls to [Swap]. *)
Definition swapAll (swaps : list (nat * nat)) (data : list A) : list A :=
  fold_left (fun data swap => Swap swap.1 swap.2 data) swaps data.

(** What [sort.Sort] knows of its argument is [Len], the answers of [Less]
    and nothing else, and all it does to the slice is call [Swap]: an
    algorithm is the sequence of swaps it makes, given the [Less] of the
    interface on the elements and the slice.  Which sequence [sort.Sort]
    makes is left to the library (it changed between Go releases, and it is
    not stable), so the algorithm is an argument of the model. *)
Definition Algorithm : Type := (A -> A -> bool) -> list A -> list (nat * nat).

(** [sort.Sort] on a slice wrapped by an interface whose [Less(i, j)] is
    [less data[i] data[j]]. *)
Definition Sort (algorithm : Algorithm) (less : A -> A -> bool) (data : list A) : list A :=
  swapAll (algorithm less data) data.

(** The inner loop of the library's [insertionSort]:
    [for j := i; j > a && data.Less(j, j-1); j-- { data.Swap(j, j-1) }]. *)
Fixpoint insertionSort_inner (less : A -> A -> bool) (j : nat) (data : list A)
  : list (nat * nat) :=
  match j with
  | 0%nat => []
  | S j' =>
    match data !! S j', data !! j' with
    | Some x, Some y =>
      if less x y then (S j', j') :: insertionSort_inner less j' (Swap (S j') j' data) else []
    | _, _ => []
    end
  end.

(** [insertionSort(data, 0, n)], the algorithm [sort.Sort] runs on a slice
    of at most twelve elements. *)
Definition insertionSort : Algorithm :=
  fun less data =>
    fst (fold_left
           (fun state i =>
              let swaps := insertionSort_inner less i state.2 in
              (state.1 ++ swaps, swapAll swaps state.2))
           (seq 1 (length data - 1)) ([], data)).

(** The slice is in ascending order as determined by [less]: no element is
    [less] than one before it. *)
Definition ascending (less : A -> A -> bool) (data : list A) : Prop :=
  StronglySorted (fun a b => less b a = false) data.

End Sort.

Arguments Algorithm : clear implicits.

End sort.

(** [coreclient.PodsGetter], restricted to the two calls [GetFirstPod]
    makes on [client.Pods(namespace)]. *)
Module PodsGetter.
Record t := mk {
  List : string -> metav1.ListOptions.t -> error + corev1.PodList.t;
  Watch : string -> metav1.ListOptions.t -> error + watch.Interface.t
}.
End PodsGetter.

(** The calls [GetFirstPod] makes on its collaborators, in order. *)
Inductive Call : Type :=
| CallList (namespace : string) (options : metav1.ListOptions.t)
| CallWatch (namespace : string) (options : metav1.ListOptions.t)
| CallUntil (timeout : Z)
| CallStop.

(** The condition [GetFirstPod] waits for. *)
Definition GetFirstPod_condition : watchtools.ConditionFunc :=
  fun event =>
    (watch.EventType_eqb (watch.Event.Type_ event) watch.Added
     || watch.EventType_eqb (watch.Event.Type_ event) watch.Modified, None).

(** [GetFirstPod]: the calls made, and [(pod, count, err)].  [sortBy pods]
    is the [Less] of the [sort.Interface] the caller builds over [pods];
    [algorithm] is the one [sort.Sort] runs. *)
Definition GetFirstPod (algorithm : sort.Algorithm corev1.Pod.t)
  (client : PodsGetter.t) (namespace selector : string) (timeout : Z)
  (sortBy : list corev1.Pod.t -> corev1.Pod.t -> corev1.Pod.t -> bool)
  : list Call * (option corev1.Pod.t * Z * option error) :=
  let options := metav1.ListOptions.mk selector "" in
  match PodsGetter.List client namespace options with
  | inl e => ([CallList namespace options], (None, 0, Some e))
  | inr podList =>
    let pods := fold_left (fun pods pod => pods ++ [pod]) (corev1.PodList.Items podList) [] in
    if 0 <? Z.of_nat (length pods) then
      let pods := sort.Sort algorithm (sortBy pods) pods in
      ([CallList namespace options],
       (head pods, Z.of_nat (length (corev1.PodList.Items podList)), None))
    else
      let options :=
        metav1.ListOptions.mk (metav1.ListOptions.LabelSelector options)
                              (corev1.PodList.ResourceVersion podList) in
      match PodsGetter.Watch client namespace options with
      | inl e =>
        ([CallList namespace (metav1.ListOptions.mk selector ""); CallWatch namespace options],
         (None, 0, Some e))
      | inr w =>
        let calls :=
          [CallList namespace (metav1.ListOptions.mk selector ""); CallWatch namespace options;
           CallUntil timeout; CallStop] in
        match watchtools.UntilWithoutRetry timeout w GetFirstPod_condition with
        | (_, Some e) => (calls, (None, 0, Some e))
        | (event, None) =>
          match event with
          | Some (watch.Event.mk _ (watch.IsPod pod)) => (calls, (Some pod, 1, None))
          | _ => (calls, (None, 0, Some NotAPodEvent))
          end
        end
      end
  end.

(** Whether [GetFirstPod_condition] holds of an event. *)
Definition qualifies (event : watch.Event.t) : bool := fst (GetFirstPod_condition event).

(** The error [UntilWithoutRetry] returns when no event satisfies the
    condition. *)
Definition ending_error (ending : watch.Ending) : error :=
  match ending with
  | watch.ChannelClosed => ErrWatchClosed
  | watch.ContextDone => ErrWaitTimeout
  end.

(** ** Shape of a result *)

(** A message built by [Sprintf] from a format that ends in a line feed. *)
Definition ends_in_newline (s : string) : Prop := exists body, s = body +:+ nl.

(** The result is an error with an empty message, or a message that ends
    in a line feed with no error. *)
Definition well_shaped (r : result) : Prop :=
  match err r with
  | Some _ => message r = ""
  | None => ends_in_newline (message r)
  end.

(** ** rollout_status.go: the viewer of a kind *)

Module schema.
Module GroupKind.
Record t := mk { Group : string; Kind : string }.
End GroupKind.

(** [GroupKind.String], which [%v] prints. *)
Definition GroupKind_String (gk : GroupKind.t) : string :=
  if (String.length (GroupKind.Group gk) =? 0)%nat then GroupKind.Kind gk
  else GroupKind.Kind gk +:+ "." +:+ GroupKind.Group gk.

(** [==] on two [GroupKind] structs. *)
Definition GroupKind_eqb (a b : GroupKind.t) : bool :=
  String.eqb (GroupKind.Group a) (GroupKind.Group b)
  && String.eqb (GroupKind.Kind a) (GroupKind.Kind b).
End schema.

(** The groups of the [SchemeGroupVersion] of the four API packages; the
    version is dropped by [GroupKind()]. *)
Definition extensionsv1beta1_GroupName : string := "extensions".
Definition appsv1_GroupName : string := "apps".
Definition kruiseappsv1alpha1_GroupName : string := "apps.kruise.io".
Definition kruiseappsv1beta1_GroupName : string := "apps.kruise.io".

(** The five implementations of the [StatusViewer] interface. *)
Inductive StatusViewer : Type :=
| DeploymentStatusViewer
| DaemonSetStatusViewer
| StatefulSetStatusViewer
| CloneSetStatusViewer
| AdvancedStatefulSetStatusViewer.

(** [StatusViewerFor]: the viewer, or the text of the error
    ["no status viewer has been implemented for %v"]. *)
Definition StatusViewerFor (kind : schema.GroupKind.t) : string + StatusViewer :=
  if schema.GroupKind_eqb kind (schema.GroupKind.mk extensionsv1beta1_GroupName "Deployment")
     || schema.GroupKind_eqb kind (schema.GroupKind.mk appsv1_GroupName "Deployment")
  then inr DeploymentStatusViewer
  else if schema.GroupKind_eqb kind (schema.GroupKind.mk extensionsv1beta1_GroupName "DaemonSet")
          || schema.GroupKind_eqb kind (schema.GroupKind.mk appsv1_GroupName "DaemonSet")
  then inr DaemonSetStatusViewer
  else if schema.GroupKind_eqb kind (schema.GroupKind.mk appsv1_GroupName "StatefulSet")
  then inr StatefulSetStatusViewer
  else if schema.GroupKind_eqb kind (schema.GroupKind.mk kruiseappsv1alpha1_GroupName "CloneSet")
  then inr CloneSetStatusViewer
  else if schema.GroupKind_eqb kind (schema.GroupKind.mk kruiseappsv1beta1_GroupName "StatefulSet")
  then inr AdvancedStatefulSetStatusViewer
  else inl ("no status viewer has been implemented for " +:+ schema.GroupKind_String kind).

(** ** helpers.go: the pod selector of an object *)

(** The errors [SelectorsForObject] builds:
    - [InvalidLabelSelector]: ["invalid label selector: %v"];
    - [ServiceWithoutSelector]: ["invalid service '%s': Service is defined
      without a selector"];
    - [SelectorNotImplemented]: ["selector for %T not implemented"]. *)
Inductive selectorError : Type :=
| InvalidLabelSelector (cause : string)
| ServiceWithoutSelector (name : string)
| SelectorNotImplemented (typeName : string).

Section Selectors.

(** [*metav1.LabelSelector] and [labels.Selector], and the two library
    functions that build a selector: [metav1.LabelSelectorAsSelector], which
    may fail, and [labels.SelectorFromSet], which does not. *)
Variable LabelSelector : Type.
Variable Selector : Type.
Variable LabelSelectorAsSelector : option LabelSelector -> string + Selector.
Variable SelectorFromSet : gmap string string -> Selector.

(** A [runtime.Object] as [SelectorsForObject] reads it: its dynamic type,
    with the namespace, the [Spec.Selector] and, for a Service, the name.  A
    nil map and an empty map are both the empty [gmap]. *)
Inductive SelectorObject : Type :=
| ExtensionsV1beta1ReplicaSet (Namespace : string) (Selector_ : option LabelSelector)
| AppsV1ReplicaSet (Namespace : string) (Selector_ : option LabelSelector)
| AppsV1beta2ReplicaSet (Namespace : string) (Selector_ : option LabelSelector)
| CoreV1ReplicationController (Namespace : string) (Selector_ : gmap string string)
| AppsV1StatefulSet (Namespace : string) (Selector_ : option LabelSelector)
| AppsV1beta1StatefulSet (Namespace : string) (Selector_ : option LabelSelector)
| AppsV1beta2StatefulSet (Namespace : string) (Selector_ : option LabelSelector)
| ExtensionsV1beta1DaemonSet (Namespace : string) (Selector_ : option LabelSelector)
| AppsV1DaemonSet (Namespace : string) (Selector_ : option LabelSelector)
| AppsV1beta2DaemonSet (Namespace : string) (Selector_ : option LabelSelector)
| ExtensionsV1beta1Deployment (Namespace : string) (Selector_ : option LabelSelector)
| AppsV1Deployment (Namespace : string) (Selector_ : option LabelSelector)
| AppsV1beta1Deployment (Namespace : string) (Selector_ : option LabelSelector)
| AppsV1beta2Deployment (Namespace : string) (Selector_ : option LabelSelector)
| BatchV1Job (Namespace : string) (Selector_ : option LabelSelector)
| CoreV1Service (Namespace Name : string) (Selector_ : gmap string string)
| OtherType (typeName : string) (Namespace : string).

(** The namespace of the object, whatever its type. *)
Definition SelectorObject_Namespace (object : SelectorObject) : string :=
  match object with
  | ExtensionsV1beta1ReplicaSet ns _ | AppsV1ReplicaSet ns _ | AppsV1beta2ReplicaSet ns _
  | CoreV1ReplicationController ns _
  | AppsV1StatefulSet ns _ | AppsV1beta1StatefulSet ns _ | AppsV1beta2StatefulSet ns _
  | ExtensionsV1beta1DaemonSet ns _ | AppsV1DaemonSet ns _ | AppsV1beta2DaemonSet ns _
  | ExtensionsV1beta1Deployment ns _ | AppsV1Deployment ns _ | AppsV1beta1Deployment ns _
  | AppsV1beta2Deployment ns _ | BatchV1Job ns _ => ns
  | CoreV1Service ns _ _ => ns
  | OtherType _ ns => ns
  end.

(** The body of the cases that read a [*metav1.LabelSelector]. *)
Definition selectorOfLabelSelector (namespace : string) (selector : option LabelSelector)
  : string * option Selector * option selectorError :=
  match LabelSelectorAsSelector selector with
  | inl cause => ("", None, Some (InvalidLabelSelector cause))
  | inr selector => (namespace, Some selector, None)
  end.

(** [SelectorsForObject]: [(namespace, selector, err)]. *)
Definition SelectorsForObject (object : SelectorObject)
  : string * option Selector * option selectorError :=
  match object with
  | ExtensionsV1beta1ReplicaSet ns sel | AppsV1ReplicaSet ns sel | AppsV1beta2ReplicaSet ns sel =>
    selectorOfLabelSelector ns sel
  | CoreV1ReplicationController ns sel => (ns, Some (SelectorFromSet sel), None)
  | AppsV1StatefulSet ns sel | AppsV1beta1StatefulSet ns sel | AppsV1beta2StatefulSet ns sel =>
    selectorOfLabelSelector ns sel
  | ExtensionsV1beta1DaemonSet ns sel | AppsV1DaemonSet ns sel | AppsV1beta2DaemonSet ns sel =>
    selectorOfLabelSelector ns sel
  | ExtensionsV1beta1Deployment ns sel | AppsV1Deployment ns sel
  | AppsV1beta1Deployment ns sel | AppsV1beta2Deployment ns sel =>
    selectorOfLabelSelector ns sel
  | BatchV1Job ns sel => selectorOfLabelSelector ns sel
  | CoreV1Service ns name sel =>
    if (size sel =? 0)%nat then ("", None, Some (ServiceWithoutSelector name))
    else (ns, Some (SelectorFromSet sel), None)
  | OtherType typeName _ => ("", None, Some (SelectorNotImplemented typeName))
  end.

End Selectors.

Arguments ExtensionsV1beta1ReplicaSet {LabelSelector}.
Arguments AppsV1ReplicaSet {LabelSelector}.
Arguments AppsV1beta2ReplicaSet {LabelSelector}.
Arguments CoreV1ReplicationController {LabelSelector}.
Arguments AppsV1StatefulSet {LabelSelector}.
Arguments AppsV1beta1StatefulSet {LabelSelector}.
Arguments AppsV1beta2StatefulSet {LabelSelector}.
Arguments ExtensionsV1beta1DaemonSet {LabelSelector}.
Arguments AppsV1DaemonSet {LabelSelector}.
Arguments AppsV1beta2DaemonSet {LabelSelector}.
Arguments ExtensionsV1beta1Deployment {LabelSelector}.
Arguments AppsV1Deployment {LabelSelector}.
Arguments AppsV1beta1Deployment {LabelSelector}.
Arguments AppsV1beta2Deployment {LabelSelector}.
Arguments BatchV1Job {LabelSelector}.
Arguments CoreV1Service {LabelSelector}.
Arguments OtherType {LabelSelector}.
Arguments SelectorObject_Namespace {LabelSelector}.
Arguments SelectorsForObject {LabelSelector Selector}.

(** ** Sample objects

    Concrete snapshots on which the evaluators and helpers are run below. *)

(** [strconv.Quote] on a name made of letters, digits, dots and dashes. *)
Definition plain_quote (s : string) : string :=
  String (ascii_of_nat 34) s +:+ String (ascii_of_nat 34) "".

(** A revision accessor for deployments that carry no revision annotation. *)
Definition no_revision (d : appsv1.Deployment.t) : string + Z := inr 0.

Definition sample_meta (name : string) (generation : Z) : metav1.ObjectMeta.t :=
  metav1.ObjectMeta.mk name "default" generation.

(** A DaemonSet with the OnDelete strategy whose latest spec (generation 2)
    has not been observed yet. *)
Definition ds_onDelete_stale : appsv1.DaemonSet.t :=
  appsv1.DaemonSet.mk (sample_meta "agent" 2)
    (appsv1.DaemonSetSpec.mk (appsv1.DaemonSetUpdateStrategy.mk appsv1.OnDeleteDaemonSetStrategyType))
    (appsv1.DaemonSetStatus.mk 1 3 3 0 3 3).


(** A StatefulSet with the OnDelete strategy, fully observed and ready. *)
Definition sts_onDelete : appsv1.StatefulSet.t :=
  appsv1.StatefulSet.mk (sample_meta "db" 1)
    (appsv1.StatefulSetSpec.mk (Some 3)
       (appsv1.StatefulSetUpdateStrategy.mk appsv1.OnDeleteStatefulSetStrategyType None))
    (appsv1.StatefulSetStatus.mk 1 3 3 3 3 "db-1" "db-1").

(** A StatefulSet under RollingUpdate with no rolling-update sub-policy, its
    update finished: both revisions agree. *)
Definition sts_converged : appsv1.StatefulSet.t :=
  appsv1.StatefulSet.mk (sample_meta "db" 1)
    (appsv1.StatefulSetSpec.mk (Some 3)
       (appsv1.StatefulSetUpdateStrategy.mk appsv1.RollingUpdateStatefulSetStrategyType None))
    (appsv1.StatefulSetStatus.mk 1 3 3 3 3 "db-2" "db-2").

(** A StatefulSet of five replicas, partition 2, with [updated] pods at the
    update revision; all five pods are ready and the two revisions differ. *)
Definition sts_partitioned (updated : Z) : appsv1.StatefulSet.t :=
  appsv1.StatefulSet.mk (sample_meta "db" 1)
    (appsv1.StatefulSetSpec.mk (Some 5)
       (appsv1.StatefulSetUpdateStrategy.mk appsv1.RollingUpdateStatefulSetStrategyType
          (Some (appsv1.RollingUpdateStatefulSetStrategy.mk (Some 2)))))
    (appsv1.StatefulSetStatus.mk 1 5 5 (5 - updated) updated "db-1" "db-2").

Definition sample_template : corev1.PodTemplateSpec.t :=
  corev1.PodTemplateSpec.mk (sample_meta "" 0)
    (corev1.PodSpec.mk
       [corev1.Container.mk "init" "busybox" ["true"] [] [corev1.EnvVar.mk "A" "1" None]]
       [corev1.Container.mk "app" "nginx" [] []
          [corev1.EnvVar.mk "A" "1" None; corev1.EnvVar.mk "RESTARTED_AT" "then" None];
        corev1.Container.mk "sidecar" "envoy" [] ["-v"] []]
       "Always" "").

(** A CloneSet in the middle of a transition: every replica is ready, one
    pod is updated, and the update revision differs from the current one. *)
Definition cs_mid_transition : kruiseappsv1alpha1.CloneSet.t :=
  kruiseappsv1alpha1.CloneSet.mk (sample_meta "web" 1)
    (kruiseappsv1alpha1.CloneSetSpec.mk (Some 3) sample_template
       (kruiseappsv1alpha1.CloneSetUpdateStrategy.mk
          kruiseappsv1alpha1.RecreateCloneSetUpdateStrategyType None false))
    (kruiseappsv1alpha1.CloneSetStatus.mk 1 3 3 3 1 1 "web-2" "web-1").

(** A CloneSet of five replicas updated in place with partition 2. *)
Definition cs_partitioned (updated : Z) : kruiseappsv1alpha1.CloneSet.t :=
  kruiseappsv1alpha1.CloneSet.mk (sample_meta "web" 1)
    (kruiseappsv1alpha1.CloneSetSpec.mk (Some 5) sample_template
       (kruiseappsv1alpha1.CloneSetUpdateStrategy.mk
          kruiseappsv1alpha1.InPlaceIfPossibleCloneSetUpdateStrategyType
          (Some (intstr.FromInt 2)) false))
    (kruiseappsv1alpha1.CloneSetStatus.mk 1 5 5 5 updated updated "web-2" "web-1").

(** An Advanced StatefulSet of five replicas with partition 2. *)
Definition asts_partitioned (updated : Z) : kruiseappsv1beta1.StatefulSet.t :=
  kruiseappsv1beta1.StatefulSet.mk (sample_meta "db" 1)
    (kruiseappsv1beta1.StatefulSetSpec.mk (Some 5) sample_template
       (kruiseappsv1beta1.StatefulSetUpdateStrategy.mk appsv1.RollingUpdateStatefulSetStrategyType
          (Some (kruiseappsv1beta1.RollingUpdateStatefulSetStrategy.mk (Some 2) false))))
    (kruiseappsv1beta1.StatefulSetStatus.mk 1 5 5 5 (5 - updated) updated "db-1" "db-2").

(** The deployment of the scenario: three replicas wanted, one updated, one
    available, the generation observed. *)
Definition dep_3_1_1 (conditions : list appsv1.DeploymentCondition.t) : appsv1.Deployment.t :=
  appsv1.Deployment.mk (sample_meta "web" 1)
    (appsv1.DeploymentSpec.mk (Some 3))
    (appsv1.DeploymentStatus.mk 1 3 1 1 1 2 conditions).

(** The Progressing condition of a deployment that exceeded its progress
    deadline. *)
Definition progress_timed_out : appsv1.DeploymentCondition.t :=
  appsv1.DeploymentCondition.mk appsv1.DeploymentProgressing "False"
    deploymentutil.TimedOutReason "ReplicaSet has timed out progressing.".

(** A deployment whose replicas are all updated and available although its
    Progressing condition reports the deadline as exceeded. *)
Definition dep_timed_out : appsv1.Deployment.t :=
  appsv1.Deployment.mk (sample_meta "api" 4)
    (appsv1.DeploymentSpec.mk (Some 2))
    (appsv1.DeploymentStatus.mk 4 2 2 2 2 0 [progress_timed_out]).

(** A deployment whose latest spec (generation 5) is not observed yet. *)
Definition dep_stale : appsv1.Deployment.t :=
  appsv1.Deployment.mk (sample_meta "api" 5)
    (appsv1.DeploymentSpec.mk (Some 2))
    (appsv1.DeploymentStatus.mk 4 2 2 2 2 0 []).

Definition sample_pod (name : string) (created : Z) : corev1.Pod.t :=
  corev1.Pod.mk (sample_meta name 1) created
    (corev1.PodSpec.mk [] [corev1.Container.mk "app" "nginx" [] [] []] "Always" "node-1")
    "Running".

(** Most recently created first. *)
Definition newest_first (pods : list corev1.Pod.t) (a b : corev1.Pod.t) : bool :=
  corev1.Pod.CreationTimestamp b <? corev1.Pod.CreationTimestamp a.

(** A watch that delivers a deletion, then the modification of a pod, and
    is then silent. *)
Definition sample_watch : watch.Interface.t :=
  watch.Interface.mk (fun timeout =>
    ([watch.Event.mk watch.Deleted (watch.IsPod (sample_pod "web-0" 10));
      watch.Event.mk watch.Modified (watch.IsPod (sample_pod "web-1" 20));
      watch.Event.mk watch.Added (watch.IsPod (sample_pod "web-2" 30))],
     watch.ContextDone)).

(** A watch on which nothing happens before the deadline. *)
Definition silent_watch : watch.Interface.t :=
  watch.Interface.mk (fun timeout => ([], watch.ContextDone)).

(** A client whose list returns the given pods at resource version "41",
    and whose watch, from that version on, is [w]. *)
Definition sample_client (pods : list corev1.Pod.t) (w : watch.Interface.t) : PodsGetter.t :=
  PodsGetter.mk
    (fun namespace options => inr (corev1.PodList.mk "41" pods))
    (fun namespace options =>
       if String.eqb (metav1.ListOptions.ResourceVersion options) "41"
       then inr w else inl (ClientError "too old resource version")).

Definition three_pods : list corev1.Pod.t :=
  [sample_pod "web-0" 10; sample_pod "web-2" 30; sample_pod "web-1" 20].

(** A revision accessor for deployments that record the revision [n]. *)
Definition recorded_revision (n : Z) (d : appsv1.Deployment.t) : string + Z := inr n.

(** A deployment of two replicas, all updated and available, observed. *)
Definition dep_rolled_out : appsv1.Deployment.t :=
  appsv1.Deployment.mk (sample_meta "api" 3)
    (appsv1.DeploymentSpec.mk (Some 2))
    (appsv1.DeploymentStatus.mk 3 2 2 2 2 0 []).

(** A rolling DaemonSet, observed, with [updated] of its three pods
    updated and two available. *)
Definition ds_rolling (updated : Z) : appsv1.DaemonSet.t :=
  appsv1.DaemonSet.mk (sample_meta "agent" 2)
    (appsv1.DaemonSetSpec.mk
       (appsv1.DaemonSetUpdateStrategy.mk appsv1.RollingUpdateDaemonSetStrategyType))
    (appsv1.DaemonSetStatus.mk 2 3 3 updated 2 2).

(** A StatefulSet of five replicas with partition 2, one pod updated and
    three ready. *)
Definition sts_not_ready : appsv1.StatefulSet.t :=
  appsv1.StatefulSet.mk (sample_meta "db" 1)
    (appsv1.StatefulSetSpec.mk (Some 5)
       (appsv1.StatefulSetUpdateStrategy.mk appsv1.RollingUpdateStatefulSetStrategyType
          (Some (appsv1.RollingUpdateStatefulSetStrategy.mk (Some 2)))))
    (appsv1.StatefulSetStatus.mk 1 5 3 4 1 "db-1" "db-2").

(** A CloneSet of five replicas updated in place with partition 2, one pod
    updated and three ready, its latest spec (generation 2) not observed. *)
Definition cs_not_ready_stale : kruiseappsv1alpha1.CloneSet.t :=
  kruiseappsv1alpha1.CloneSet.mk (sample_meta "web" 2)
    (kruiseappsv1alpha1.CloneSetSpec.mk (Some 5) sample_template
       (kruiseappsv1alpha1.CloneSetUpdateStrategy.mk
          kruiseappsv1alpha1.InPlaceOnlyCloneSetUpdateStrategyType
          (Some (intstr.FromInt 2)) false))
    (kruiseappsv1alpha1.CloneSetStatus.mk 1 5 3 3 1 1 "web-2" "web-1").

(** An Advanced StatefulSet read from a manifest that names the
    RollingUpdate strategy and gives no rolling-update sub-policy. *)
Definition asts_without_subpolicy : kruiseappsv1beta1.StatefulSet.t :=
  kruiseappsv1beta1.StatefulSet.mk (sample_meta "db" 1)
    (kruiseappsv1beta1.StatefulSetSpec.mk (Some 3) sample_template
       (kruiseappsv1beta1.StatefulSetUpdateStrategy.mk appsv1.RollingUpdateStatefulSetStrategyType
          None))
    (kruiseappsv1beta1.StatefulSetStatus.mk 1 3 3 3 3 3 "db-1" "db-1").

(** Selectors as sets of labels, a label selector being refused when it
    has a label with an empty key. *)
Definition sample_LabelSelectorAsSelector (selector : option (gmap string string))
  : string + gmap string string :=
  match selector with
  | None => inr ∅
  | Some labels =>
    if bool_decide (is_Some (labels !! "")) then inl "name part must be non-empty"
    else inr labels
  end.

Definition sample_SelectorFromSet (labels : gmap string string) : gmap string string := labels.

(** A watch that delivers a bookmark and then a modification that carries
    no pod. *)
Definition status_watch : watch.Interface.t :=
  watch.Interface.mk (fun timeout =>
    ([watch.Event.mk watch.Bookmark (watch.NotPod "Pod");
      watch.Event.mk watch.Modified (watch.NotPod "Status")],
     watch.ChannelClosed)).


(** * Properties *)

(** ** Machine integers *)

Lemma Int32_wrap_in_range (z : Z) : Int32.in_range z -> Int32.wrap z = z.
Proof.
  unfold Int32.in_range, Int32.min_int, Int32.max_int, Int32.wrap. intros Hz.
  rewrite Z.mod_small; lia.
Qed.

Lemma Int32_sub_exact (a b : Z) : Int32.in_range (a - b) -> Int32.sub a b = a - b.
Proof. apply Int32_wrap_in_range. Qed.

(** ** The rollout status evaluators *)

Section StatusViewerFacts.

Variable fmt_q : string -> string.
Variable Revision : appsv1.Deployment.t -> string + Z.

Import appsv1.

Local Abbreviation Deployment_Status := (DeploymentStatusViewer_Status fmt_q Revision).
Local Abbreviation DaemonSet_Status := (DaemonSetStatusViewer_Status fmt_q).

(** Boolean tests of the evaluators, turned into the propositions they
    decide. *)
Ltac reflect_tests :=
  repeat match goal with
  | H : (_ <? _) = true |- _ => apply Z.ltb_lt in H
  | H : (_ <? _) = false |- _ => apply Z.ltb_ge in H
  | H : (_ <=? _) = true |- _ => apply Z.leb_le in H
  | H : (_ <=? _) = false |- _ => apply Z.leb_gt in H
  | H : (_ =? _) = true |- _ => apply Z.eqb_eq in H
  | H : (_ =? _) = false |- _ => apply Z.eqb_neq in H
  | H : String.eqb _ _ = true |- _ => apply String.eqb_eq in H
  | H : String.eqb _ _ = false |- _ => apply String.eqb_neq in H
  | H : negb _ = true |- _ => apply negb_true_iff in H
  | H : negb _ = false |- _ => apply negb_false_iff in H
  | H : _ || _ = true |- _ => apply orb_true_iff in H
  | H : _ || _ = false |- _ => apply orb_false_iff in H; destruct H
  end.

(** Case analysis along the branches of an evaluator. *)
Ltac branches := repeat case_match; simplify_eq/=; reflect_tests.

Lemma revision_check_accepted (d : Deployment.t) (revision : Z) :
  revision_accepted Revision d revision ->
  (if 0 <? revision
   then match Revision d with
        | inl cause => Some (RevisionUnreadable (Deployment.Name d) cause)
        | inr deploymentRev =>
          if negb (revision =? deploymentRev)
          then Some (RevisionMismatch revision deploymentRev) else None
        end
   else None) = None.
Proof.
  intros [Hle | Heq].
  - destruct (Z.ltb_spec 0 revision); [lia | reflexivity].
  - rewrite Heq, Z.eqb_refl. by destruct (0 <? revision).
Qed.

Lemma deadline_test (d : Deployment.t) :
  match deploymentutil.GetDeploymentCondition (Deployment.Status d) DeploymentProgressing with
  | Some c => String.eqb (DeploymentCondition.Reason c) deploymentutil.TimedOutReason
  | None => false
  end = true <-> progress_deadline_exceeded d.
Proof.
  unfold progress_deadline_exceeded. split.
  - destruct (deploymentutil.GetDeploymentCondition _ _) as [c|]; [|done].
    intros H%String.eqb_eq. eauto.
  - intros (c & -> & H). by apply String.eqb_eq.
Qed.

Lemma deadline_test_false (d : Deployment.t) :
  ~ progress_deadline_exceeded d ->
  match deploymentutil.GetDeploymentCondition (Deployment.Status d) DeploymentProgressing with
  | Some c => String.eqb (DeploymentCondition.Reason c) deploymentutil.TimedOutReason
  | None => false
  end = false.
Proof.
  intros H. apply not_true_is_false. by rewrite deadline_test.
Qed.


(** C2, as amended.  A result with done=true and an error is returned in one
    case only: the DaemonSet and the StatefulSet evaluators answer a strategy
    other than RollingUpdate with [("", true, UnsupportedStrategy)].  Every
    other error comes with done=false, and the Deployment, CloneSet and
    Advanced StatefulSet evaluators never pair done=true with an error. *)
Theorem done_with_error_only_for_unsupported_strategy :
  (forall obj revision,
      let r := Deployment_Status obj revision in done r = true -> err r = None)
  /\ (forall obj revision,
      let r := CloneSetStatusViewer_Status obj revision in done r = true -> err r = None)
  /\ (forall obj revision r,
      AdvancedStatefulSetStatusViewer_Status obj revision = Return r ->
      done r = true -> err r = None)
  /\ (forall obj revision,
      let r := DaemonSet_Status obj revision in
      done r = true /\ err r <> None <->
      exists ds, obj = inr ds
        /\ DaemonSetUpdateStrategy.Type_ (DaemonSetSpec.UpdateStrategy (DaemonSet.Spec ds))
           <> RollingUpdateDaemonSetStrategyType
        /\ r = ("", true, Some (UnsupportedStrategy RollingUpdateStatefulSetStrategyType)))
  /\ (forall obj revision,
      let r := StatefulSetStatusViewer_Status obj revision in
      done r = true /\ err r <> None <->
      exists sts, obj = inr sts
        /\ StatefulSetUpdateStrategy.Type_ (StatefulSetSpec.UpdateStrategy (StatefulSet.Spec sts))
           <> RollingUpdateStatefulSetStrategyType
        /\ r = ("", true, Some (UnsupportedStrategy RollingUpdateStatefulSetStrategyType))).
Proof.
  split; [|split; [|split; [|split]]].
  - intros obj revision r. subst r. unfold DeploymentStatusViewer_Status. cbv zeta.
    by branches.
  - intros obj revision r. subst r. unfold CloneSetStatusViewer_Status. cbv zeta.
    by branches.
  - intros obj revision r Hret. unfold AdvancedStatefulSetStatusViewer_Status in Hret.
    cbv zeta in Hret. by branches.
  - intros obj revision r. subst r. unfold DaemonSetStatusViewer_Status. cbv zeta. split.
    + intros [Hdone Herr]. destruct obj as [cause | ds]; [done|].
      exists ds. split; [done|].
      destruct (String.eqb _ _) eqn:Hty; cbn [negb] in *.
      * by branches.
      * apply String.eqb_neq in Hty. done.
    + intros (ds & -> & Hty & Hr). apply String.eqb_neq in Hty. by rewrite Hty.
  - intros obj revision r. subst r. unfold StatefulSetStatusViewer_Status. cbv zeta. split.
    + intros [Hdone Herr]. destruct obj as [cause | sts]; [done|].
      exists sts. split; [done|].
      destruct (String.eqb _ _) eqn:Hty; cbn [negb] in *.
      * by branches.
      * apply String.eqb_neq in Hty. done.
    + intros (sts & -> & Hty & Hr). apply String.eqb_neq in Hty. by rewrite Hty.
Qed.

(** C3, as amended.  The StatefulSet evaluator compares the two revisions
    only when the strategy has no rolling-update sub-policy: there, done=true
    without an error implies that the update revision is the current one.
    With a sub-policy its answer does not depend on the revisions, and the
    CloneSet and Advanced StatefulSet evaluators never compare them: whether
    they report done is the same whatever the two revisions are. *)
Theorem done_requires_equal_revisions_without_subpolicy :
  (forall (sts : StatefulSet.t) (revision : Z),
      StatefulSetUpdateStrategy.RollingUpdate (StatefulSetSpec.UpdateStrategy (StatefulSet.Spec sts))
      = None ->
      let r := StatefulSetStatusViewer_Status (inr sts) revision in
      done r = true -> err r = None ->
      StatefulSetStatus.UpdateRevision (StatefulSet.Status sts)
      = StatefulSetStatus.CurrentRevision (StatefulSet.Status sts))
  /\ (forall (sts : StatefulSet.t) (revision : Z) (current update : string),
      StatefulSetUpdateStrategy.RollingUpdate (StatefulSetSpec.UpdateStrategy (StatefulSet.Spec sts))
      <> None ->
      StatefulSetStatusViewer_Status (inr (StatefulSet_setRevisions sts current update)) revision
      = StatefulSetStatusViewer_Status (inr sts) revision)
  /\ (forall (cs : kruiseappsv1alpha1.CloneSet.t) (revision : Z) (current update : string),
      let r := CloneSetStatusViewer_Status (inr cs) revision in
      let r' := CloneSetStatusViewer_Status (inr (CloneSet_setRevisions cs current update)) revision in
      done r' = done r /\ err r' = err r)
  /\ (forall (asts : kruiseappsv1beta1.StatefulSet.t) (revision : Z) (current update : string),
      outcome_done
        (AdvancedStatefulSetStatusViewer_Status
           (inr (AdvancedStatefulSet_setRevisions asts current update)) revision)
      = outcome_done (AdvancedStatefulSetStatusViewer_Status (inr asts) revision)).
Proof.
  split; [|split; [|split]].
  - intros sts revision Hnone r. subst r. unfold StatefulSetStatusViewer_Status. cbv zeta.
    rewrite Hnone. by branches.
  - intros [meta [replicas [ty [ru|]]] status] revision current update Hsome; [|done].
    unfold StatefulSetStatusViewer_Status, StatefulSet_setRevisions, StatefulSet.Generation.
    cbn. by destruct (String.eqb ty RollingUpdateStatefulSetStrategyType).
  - intros [meta spec status] revision current update r r'. subst r r'.
    unfold CloneSetStatusViewer_Status, CloneSet_setRevisions,
      kruiseappsv1alpha1.CloneSet.Generation. cbn.
    by repeat case_match.
  - intros [meta spec status] revision current update.
    unfold AdvancedStatefulSetStatusViewer_Status, AdvancedStatefulSet_setRevisions,
      kruiseappsv1beta1.StatefulSet.Generation, outcome_done. cbn.
    repeat case_match; by simplify_eq.
Qed.

(** C4.  For a partitioned snapshot with replicas set, the evaluators take
    [replicas - partition] (in [int32] arithmetic, exact whenever the
    difference fits) as the number of pods that must be updated.  While the
    updated count is below that target the answer is the partition shortfall
    message with done=false; once the count reaches the target the partition
    check is satisfied, whatever the revisions and the count of pods still at
    the current revision are, and with the generation observed and the
    replicas ready the evaluators report done=true.  With five replicas and
    partition 2 the target is 3. *)
Theorem partition_check_reaches_target :
  (forall (sts : StatefulSet.t) (revision replicas partition : Z) ru,
      let spec := StatefulSet.Spec sts in
      let status := StatefulSet.Status sts in
      let updated := StatefulSetStatus.UpdatedReplicas status in
      StatefulSetUpdateStrategy.Type_ (StatefulSetSpec.UpdateStrategy spec)
      = RollingUpdateStatefulSetStrategyType ->
      StatefulSetUpdateStrategy.RollingUpdate (StatefulSetSpec.UpdateStrategy spec) = Some ru ->
      RollingUpdateStatefulSetStrategy.Partition ru = Some partition ->
      StatefulSetSpec.Replicas spec = Some replicas ->
      StatefulSetStatus.ObservedGeneration status <> 0 ->
      StatefulSet.Generation sts <= StatefulSetStatus.ObservedGeneration status ->
      replicas <= StatefulSetStatus.ReadyReplicas status ->
      (updated < Int32.sub replicas partition ->
       StatefulSetStatusViewer_Status (inr sts) revision
       = ("Waiting for partitioned roll out to finish: " +:+ fmt_d updated +:+ " out of "
          +:+ fmt_d (Int32.sub replicas partition) +:+ " new pods have been updated..." +:+ nl,
          false, None))
      /\ (Int32.sub replicas partition <= updated ->
          StatefulSetStatusViewer_Status (inr sts) revision
          = ("partitioned roll out complete: " +:+ fmt_d updated
             +:+ " new pods have been updated..." +:+ nl, true, None)))
  /\ (forall (cs : kruiseappsv1alpha1.CloneSet.t) (revision replicas : Z) partition,
      let spec := kruiseappsv1alpha1.CloneSet.Spec cs in
      let status := kruiseappsv1alpha1.CloneSet.Status cs in
      let strategy := kruiseappsv1alpha1.CloneSetSpec.UpdateStrategy spec in
      let updated := kruiseappsv1alpha1.CloneSetStatus.UpdatedReplicas status in
      let target := Int32.sub replicas (intstr.IntOrString.IntVal partition) in
      kruiseappsv1alpha1.CloneSetUpdateStrategy.Type_ strategy
      = kruiseappsv1alpha1.InPlaceOnlyCloneSetUpdateStrategyType
      \/ kruiseappsv1alpha1.CloneSetUpdateStrategy.Type_ strategy
         = kruiseappsv1alpha1.InPlaceIfPossibleCloneSetUpdateStrategyType ->
      kruiseappsv1alpha1.CloneSetSpec.Replicas spec = Some replicas ->
      kruiseappsv1alpha1.CloneSetUpdateStrategy.Partition strategy = Some partition ->
      (updated < target ->
       CloneSetStatusViewer_Status (inr cs) revision
       = ("Waiting for partitioned roll out to finish: " +:+ fmt_d updated +:+ " out of "
          +:+ fmt_d target +:+ " new pods have been updated..." +:+ nl, false, None))
      /\ (target <= updated ->
          kruiseappsv1alpha1.CloneSetStatus.ObservedGeneration status <> 0 ->
          kruiseappsv1alpha1.CloneSet.Generation cs
          <= kruiseappsv1alpha1.CloneSetStatus.ObservedGeneration status ->
          replicas <= kruiseappsv1alpha1.CloneSetStatus.ReadyReplicas status ->
          CloneSetStatusViewer_Status (inr cs) revision
          = ("CloneSet rolling update complete "
             +:+ fmt_d (kruiseappsv1alpha1.CloneSetStatus.AvailableReplicas status)
             +:+ " pods at revision "
             +:+ kruiseappsv1alpha1.CloneSetStatus.UpdateRevision status +:+ "..." +:+ nl,
             true, None)))
  /\ (forall (asts : kruiseappsv1beta1.StatefulSet.t) (revision replicas partition : Z) ru,
      let spec := kruiseappsv1beta1.StatefulSet.Spec asts in
      let status := kruiseappsv1beta1.StatefulSet.Status asts in
      let updated := kruiseappsv1beta1.StatefulSetStatus.UpdatedReplicas status in
      kruiseappsv1beta1.StatefulSetUpdateStrategy.Type_
        (kruiseappsv1beta1.StatefulSetSpec.UpdateStrategy spec)
      = RollingUpdateStatefulSetStrategyType ->
      kruiseappsv1beta1.StatefulSetUpdateStrategy.RollingUpdate
        (kruiseappsv1beta1.StatefulSetSpec.UpdateStrategy spec) = Some ru ->
      kruiseappsv1beta1.RollingUpdateStatefulSetStrategy.Partition ru = Some partition ->
      kruiseappsv1beta1.StatefulSetSpec.Replicas spec = Some replicas ->
      (updated < Int32.sub replicas partition ->
       AdvancedStatefulSetStatusViewer_Status (inr asts) revision
       = Return
           ("Waiting for partitioned roll out to finish:" +:+ fmt_d updated +:+ " out of "
            +:+ fmt_d (Int32.sub replicas partition) +:+ " new pods has been updated..." +:+ nl,
            false, None))
      /\ (Int32.sub replicas partition <= updated ->
          kruiseappsv1beta1.StatefulSetStatus.ObservedGeneration status <> 0 ->
          kruiseappsv1beta1.StatefulSet.Generation asts
          <= kruiseappsv1beta1.StatefulSetStatus.ObservedGeneration status ->
          replicas <= kruiseappsv1beta1.StatefulSetStatus.ReadyReplicas status ->
          AdvancedStatefulSetStatusViewer_Status (inr asts) revision
          = Return
              ("Advanced StatefulSet rolling update complete "
               +:+ fmt_d (kruiseappsv1beta1.StatefulSetStatus.AvailableReplicas status)
               +:+ " pods at revision "
               +:+ kruiseappsv1beta1.StatefulSetStatus.UpdateRevision status +:+ "..." +:+ nl,
               true, None)))
  /\ (forall replicas partition : Z,
      Int32.in_range (replicas - partition) -> Int32.sub replicas partition = replicas - partition)
  /\ Int32.sub 5 2 = 3.
Proof.
  split; [|split; [|split; [|split]]].
  - intros sts revision replicas partition ru spec status updated Hty Hru Hp Hr Hobs Hgen Hready.
    subst spec status updated.
    unfold StatefulSetStatusViewer_Status. cbv zeta.
    rewrite Hty, String.eqb_refl, Hru, Hr, Hp. cbn [negb].
    rewrite (proj2 (Z.eqb_neq _ _) Hobs), (proj2 (Z.ltb_ge _ _) Hgen),
      (proj2 (Z.ltb_ge _ _) Hready). cbn [orb].
    split; intros Hu.
    + by rewrite (proj2 (Z.ltb_lt _ _) Hu).
    + by rewrite (proj2 (Z.ltb_ge _ _) Hu).
  - intros cs revision replicas partition spec status strategy updated target Hty Hr Hp.
    subst spec status strategy updated target.
    unfold CloneSetStatusViewer_Status. cbv zeta.
    rewrite Hr, Hp.
    assert (String.eqb (kruiseappsv1alpha1.CloneSetUpdateStrategy.Type_
                          (kruiseappsv1alpha1.CloneSetSpec.UpdateStrategy
                             (kruiseappsv1alpha1.CloneSet.Spec cs)))
                       kruiseappsv1alpha1.InPlaceOnlyCloneSetUpdateStrategyType
            || String.eqb (kruiseappsv1alpha1.CloneSetUpdateStrategy.Type_
                             (kruiseappsv1alpha1.CloneSetSpec.UpdateStrategy
                                (kruiseappsv1alpha1.CloneSet.Spec cs)))
                          kruiseappsv1alpha1.InPlaceIfPossibleCloneSetUpdateStrategyType
            = true) as ->.
    { apply orb_true_iff. destruct Hty as [-> | ->]; [left | right]; apply String.eqb_refl. }
    split.
    + intros Hu. by rewrite (proj2 (Z.ltb_lt _ _) Hu).
    + intros Hu Hobs Hgen Hready.
      by rewrite (proj2 (Z.ltb_ge _ _) Hu), (proj2 (Z.eqb_neq _ _) Hobs),
        (proj2 (Z.ltb_ge _ _) Hgen), (proj2 (Z.ltb_ge _ _) Hready).
  - intros asts revision replicas partition ru spec status updated Hty Hru Hp Hr.
    subst spec status updated.
    unfold AdvancedStatefulSetStatusViewer_Status. cbv zeta.
    rewrite Hty, String.eqb_refl, Hru, Hr, Hp.
    split.
    + intros Hu. by rewrite (proj2 (Z.ltb_lt _ _) Hu).
    + intros Hu Hobs Hgen Hready.
      by rewrite (proj2 (Z.ltb_ge _ _) Hu), (proj2 (Z.eqb_neq _ _) Hobs),
        (proj2 (Z.ltb_ge _ _) Hgen), (proj2 (Z.ltb_ge _ _) Hready).
  - intros replicas partition. apply Int32_sub_exact.
  - reflexivity.
Qed.

(** C5, as amended.  For a Deployment whose generation has been observed,
    once the requested revision is accepted and the Progressing condition
    does not report the progress deadline as exceeded, the three replica
    checks are made in the order (a) updated below the replicas wanted (made
    only when the spec sets replicas), (b) old replicas left, (c) available
    below updated; the first unmet one gives its own not-done message and,
    all met, the rollout is done.  With three replicas wanted, one updated
    and one available, the answer is the message "1 out of 3 new replicas
    have been updated", done=false. *)
Theorem deployment_checks_in_order (d : Deployment.t) (revision : Z) :
  let status := Deployment.Status d in
  let updated := DeploymentStatus.UpdatedReplicas status in
  let total := DeploymentStatus.Replicas status in
  let available := DeploymentStatus.AvailableReplicas status in
  let wanted := DeploymentSpec.Replicas (Deployment.Spec d) in
  Deployment.Generation d <= DeploymentStatus.ObservedGeneration status ->
  revision_accepted Revision d revision ->
  ~ progress_deadline_exceeded d ->
  (forall replicas, wanted = Some replicas -> updated < replicas ->
     Deployment_Status (inr d) revision
     = ("Waiting for deployment " +:+ fmt_q (Deployment.Name d) +:+ " rollout to finish: "
        +:+ fmt_d updated +:+ " out of " +:+ fmt_d replicas
        +:+ " new replicas have been updated..." +:+ nl, false, None))
  /\ ((forall replicas, wanted = Some replicas -> replicas <= updated) ->
      (updated < total ->
       Deployment_Status (inr d) revision
       = ("Waiting for deployment " +:+ fmt_q (Deployment.Name d) +:+ " rollout to finish: "
          +:+ fmt_d (Int32.sub total updated)
          +:+ " old replicas are pending termination..." +:+ nl, false, None))
      /\ (total <= updated -> available < updated ->
          Deployment_Status (inr d) revision
          = ("Waiting for deployment " +:+ fmt_q (Deployment.Name d) +:+ " rollout to finish: "
             +:+ fmt_d available +:+ " of " +:+ fmt_d updated
             +:+ " updated replicas are available..." +:+ nl, false, None))
      /\ (total <= updated -> updated <= available ->
          Deployment_Status (inr d) revision
          = ("deployment " +:+ fmt_q (Deployment.Name d) +:+ " successfully rolled out" +:+ nl,
             true, None)))
  /\ (wanted = Some 3 -> updated = 1 -> available = 1 ->
      Deployment_Status (inr d) revision
      = ("Waiting for deployment " +:+ fmt_q (Deployment.Name d)
         +:+ " rollout to finish: 1 out of 3 new replicas have been updated..." +:+ nl,
         false, None)).
Proof.
  intros status updated total available wanted Hgen Hrev Hdeadline.
  subst status updated total available wanted.
  unfold DeploymentStatusViewer_Status. cbv zeta.
  rewrite revision_check_accepted by done.
  rewrite (proj2 (Z.leb_le _ _) Hgen), deadline_test_false by done.
  split; [|split].
  - intros replicas -> Hu. by rewrite (proj2 (Z.ltb_lt _ _) Hu).
  - intros Hmet.
    assert (match DeploymentSpec.Replicas (Deployment.Spec d) with
            | Some replicas =>
              if DeploymentStatus.UpdatedReplicas (Deployment.Status d) <? replicas
              then Some replicas else None
            | None => None
            end = None) as ->.
    { destruct (DeploymentSpec.Replicas _) as [replicas|]; [|done].
      by rewrite (proj2 (Z.ltb_ge _ _) (Hmet replicas eq_refl)). }
    split; [|split].
    + intros Hb. by rewrite (proj2 (Z.ltb_lt _ _) Hb).
    + intros Hb Hc. by rewrite (proj2 (Z.ltb_ge _ _) Hb), (proj2 (Z.ltb_lt _ _) Hc).
    + intros Hb Hc. by rewrite (proj2 (Z.ltb_ge _ _) Hb), (proj2 (Z.ltb_ge _ _) Hc).
  - intros -> -> _. reflexivity.
Qed.

(** C6, as amended.  The Deployment evaluator detects an exceeded progress
    deadline itself: it returns the error "deployment exceeded its progress
    deadline" exactly when the object converts, the requested revision is
    accepted, the generation is observed and the Progressing condition has
    the reason ProgressDeadlineExceeded.  The other four evaluators never
    return that error. *)
Theorem progress_deadline_detected_by_deployment_only :
  (forall obj revision name,
      err (Deployment_Status obj revision) = Some (ProgressDeadlineExceeded name) <->
      exists d, obj = inr d /\ name = Deployment.Name d
        /\ revision_accepted Revision d revision
        /\ Deployment.Generation d <= DeploymentStatus.ObservedGeneration (Deployment.Status d)
        /\ progress_deadline_exceeded d)
  /\ (forall obj revision name,
      err (DaemonSet_Status obj revision) <> Some (ProgressDeadlineExceeded name))
  /\ (forall obj revision name,
      err (StatefulSetStatusViewer_Status obj revision) <> Some (ProgressDeadlineExceeded name))
  /\ (forall obj revision name,
      err (CloneSetStatusViewer_Status obj revision) <> Some (ProgressDeadlineExceeded name))
  /\ (forall obj revision r name,
      AdvancedStatefulSetStatusViewer_Status obj revision = Return r ->
      err r <> Some (ProgressDeadlineExceeded name)).
Proof.
  split; [|split; [|split; [|split]]].
  - intros obj revision name. split.
    + destruct obj as [cause | d]; [done|]. intros Herr.
      unfold DeploymentStatusViewer_Status in Herr. cbv zeta in Herr.
      destruct (0 <? revision) eqn:Hpos.
      * destruct (Revision d) as [cause | deploymentRev] eqn:Hrevision; [done|].
        destruct (revision =? deploymentRev) eqn:Heq; [|done].
        apply Z.eqb_eq in Heq. subst deploymentRev. cbn [negb] in Herr.
        destruct (_ <=? _) eqn:Hgen; [|done]. apply Z.leb_le in Hgen.
        destruct (match deploymentutil.GetDeploymentCondition _ _ with
                  | Some _ => _ | None => _ end) eqn:Hdl.
        -- apply deadline_test in Hdl. simplify_eq/=.
           exists d. unfold revision_accepted. eauto 10.
        -- by branches.
      * apply Z.ltb_ge in Hpos.
        destruct (_ <=? _) eqn:Hgen; [|done]. apply Z.leb_le in Hgen.
        destruct (match deploymentutil.GetDeploymentCondition _ _ with
                  | Some _ => _ | None => _ end) eqn:Hdl.
        -- apply deadline_test in Hdl. simplify_eq/=.
           exists d. unfold revision_accepted. eauto 10.
        -- by branches.
    + intros (d & -> & -> & Hrev & Hgen & Hdl).
      unfold DeploymentStatusViewer_Status. cbv zeta.
      rewrite revision_check_accepted by done.
      rewrite (proj2 (Z.leb_le _ _) Hgen), (proj2 (deadline_test d) Hdl). done.
  - intros obj revision name. unfold DaemonSetStatusViewer_Status. cbv zeta. by branches.
  - intros obj revision name. unfold StatefulSetStatusViewer_Status. cbv zeta. by branches.
  - intros obj revision name. unfold CloneSetStatusViewer_Status. cbv zeta. by branches.
  - intros obj revision r name Hret.
    unfold AdvancedStatefulSetStatusViewer_Status in Hret. cbv zeta in Hret. by branches.
Qed.

End StatusViewerFacts.

(** ** The evaluators on the sample objects *)



(** The StatefulSet evaluator pairs done=true with the strategy error. *)
Lemma done_with_error_only_for_unsupported_strategy_witness :
  let r := StatefulSetStatusViewer_Status (inr sts_onDelete) 0 in
  done r = true /\ err r <> None.
Proof.
  destruct (done_with_error_only_for_unsupported_strategy plain_quote no_revision)
    as (_ & _ & _ & _ & Hsts).
  apply Hsts. exists sts_onDelete.
  split; [reflexivity | split; [discriminate | reflexivity]].
Defined.

(** C2 fails on a DaemonSet with the OnDelete strategy. *)
Lemma daemonset_done_with_error :
  let r := DaemonSetStatusViewer_Status plain_quote (inr ds_onDelete_stale) 0 in
  r = ("", true, Some (UnsupportedStrategy "RollingUpdate"))
  /\ done r = true /\ err r <> None.
Proof. split; [reflexivity | split; [reflexivity | discriminate]]. Qed.

(** A converged StatefulSet without sub-policy is done, its revisions equal. *)
Lemma done_requires_equal_revisions_without_subpolicy_witness :
  done (StatefulSetStatusViewer_Status (inr sts_converged) 0) = true
  /\ appsv1.StatefulSetStatus.UpdateRevision (appsv1.StatefulSet.Status sts_converged)
     = appsv1.StatefulSetStatus.CurrentRevision (appsv1.StatefulSet.Status sts_converged).
Proof.
  split; [reflexivity |].
  apply (proj1 done_requires_equal_revisions_without_subpolicy sts_converged 0); reflexivity.
Defined.

(** C3 fails on a CloneSet and on a partitioned StatefulSet: both are
    reported done while the update revision differs from the current one. *)
Lemma done_with_different_revisions :
  let cs := CloneSetStatusViewer_Status (inr cs_mid_transition) 0 in
  let sts := StatefulSetStatusViewer_Status (inr (sts_partitioned 3)) 0 in
  cs = ("CloneSet rolling update complete 3 pods at revision web-2..." +:+ nl, true, None)
  /\ kruiseappsv1alpha1.CloneSetStatus.UpdateRevision
       (kruiseappsv1alpha1.CloneSet.Status cs_mid_transition)
     <> kruiseappsv1alpha1.CloneSetStatus.CurrentRevision
          (kruiseappsv1alpha1.CloneSet.Status cs_mid_transition)
  /\ sts = ("partitioned roll out complete: 3 new pods have been updated..." +:+ nl, true, None)
  /\ appsv1.StatefulSetStatus.UpdateRevision (appsv1.StatefulSet.Status (sts_partitioned 3))
     <> appsv1.StatefulSetStatus.CurrentRevision (appsv1.StatefulSet.Status (sts_partitioned 3)).
Proof. repeat split; (reflexivity || discriminate). Qed.

(** Five replicas, partition 2: not done at two updated pods, done at
    three, for the StatefulSet and the CloneSet. *)
Lemma partition_check_reaches_target_witness :
  StatefulSetStatusViewer_Status (inr (sts_partitioned 2)) 0
  = ("Waiting for partitioned roll out to finish: 2 out of 3 new pods have been updated..."
     +:+ nl, false, None)
  /\ StatefulSetStatusViewer_Status (inr (sts_partitioned 3)) 0
     = ("partitioned roll out complete: 3 new pods have been updated..." +:+ nl, true, None)
  /\ CloneSetStatusViewer_Status (inr (cs_partitioned 2)) 0
     = ("Waiting for partitioned roll out to finish: 2 out of 3 new pods have been updated..."
        +:+ nl, false, None)
  /\ CloneSetStatusViewer_Status (inr (cs_partitioned 3)) 0
     = ("CloneSet rolling update complete 5 pods at revision web-2..." +:+ nl, true, None).
Proof.
  destruct partition_check_reaches_target as (Hsts & Hcs & _).
  split; [|split; [|split]].
  - apply (Hsts (sts_partitioned 2) 0 5 2 (appsv1.RollingUpdateStatefulSetStrategy.mk (Some 2)));
      (reflexivity || discriminate).
  - apply (Hsts (sts_partitioned 3) 0 5 2 (appsv1.RollingUpdateStatefulSetStrategy.mk (Some 2)));
      (reflexivity || discriminate).
  - apply (Hcs (cs_partitioned 2) 0 5 (intstr.FromInt 2));
      (reflexivity || (right; reflexivity)).
  - apply (Hcs (cs_partitioned 3) 0 5 (intstr.FromInt 2));
      (reflexivity || discriminate || (right; reflexivity)).
Defined.

(** The scenario of the Deployment with three replicas wanted. *)
Lemma deployment_checks_in_order_witness :
  DeploymentStatusViewer_Status plain_quote no_revision (inr (dep_3_1_1 [])) 0
  = ("Waiting for deployment " +:+ plain_quote "web"
     +:+ " rollout to finish: 1 out of 3 new replicas have been updated..." +:+ nl,
     false, None).
Proof.
  apply (deployment_checks_in_order plain_quote no_revision (dep_3_1_1 []) 0);
    [discriminate | left; discriminate | intros (c & Hc & _); discriminate Hc
     | reflexivity | reflexivity | reflexivity].
Defined.

(** C5 fails on the same Deployment once its Progressing condition is timed
    out: the generation is observed and the updated count is below the
    replicas wanted, yet the answer is an error, not the updated-message. *)
Lemma deployment_checks_preempted_by_deadline :
  let d := dep_3_1_1 [progress_timed_out] in
  let r := DeploymentStatusViewer_Status plain_quote no_revision (inr d) 0 in
  appsv1.Deployment.Generation d
  <= appsv1.DeploymentStatus.ObservedGeneration (appsv1.Deployment.Status d)
  /\ appsv1.DeploymentSpec.Replicas (appsv1.Deployment.Spec d) = Some 3
  /\ appsv1.DeploymentStatus.UpdatedReplicas (appsv1.Deployment.Status d) = 1
  /\ appsv1.DeploymentStatus.AvailableReplicas (appsv1.Deployment.Status d) = 1
  /\ r = ("", false, Some (ProgressDeadlineExceeded "web"))
  /\ message r
     <> "Waiting for deployment " +:+ plain_quote "web"
        +:+ " rollout to finish: 1 out of 3 new replicas have been updated..." +:+ nl.
Proof. repeat split; (reflexivity || discriminate). Qed.

(** The deadline error is returned for a Deployment that is timed out. *)
Lemma progress_deadline_detected_by_deployment_only_witness :
  err (DeploymentStatusViewer_Status plain_quote no_revision (inr dep_timed_out) 0)
  = Some (ProgressDeadlineExceeded "api").
Proof.
  apply (proj1 (progress_deadline_detected_by_deployment_only plain_quote no_revision)).
  exists dep_timed_out.
  split; [reflexivity | split; [reflexivity | split; [left; discriminate | split]]].
  - discriminate.
  - exists progress_timed_out. split; reflexivity.
Defined.

(** C6 fails on a Deployment whose Progressing condition is timed out: the
    evaluator itself returns the progress deadline error. *)
Lemma deployment_reports_progress_deadline :
  DeploymentStatusViewer_Status plain_quote no_revision (inr dep_timed_out) 0
  = ("", false, Some (ProgressDeadlineExceeded "api")).
Proof. reflexivity. Qed.

(** ** Environment variables *)

Section UpdateEnv.

Import corev1.

Implicit Types (existing env out : list EnvVar.t) (covered : gset string) (e : EnvVar.t).

Lemma findEnv_name env name e : findEnv env name = (e, true) -> EnvVar.Name e = name.
Proof.
  induction env as [|e' env IH]; cbn; [done|].
  destruct (String.eqb_spec (EnvVar.Name e') name); [|done]. by intros [= <-].
Qed.

Lemma findEnv_found env name : name ∈ names env -> exists e, findEnv env name = (e, true).
Proof.
  induction env as [|e' env IH]; cbn.
  - by intros ?%elem_of_nil.
  - intros [->|Hin]%elem_of_cons.
    + rewrite String.eqb_refl. eauto.
    + destruct (String.eqb _ _); eauto.
Qed.

Lemma findEnv_missing env name e : findEnv env name = (e, false) -> name ∉ names env.
Proof.
  intros Hfind Hin. destruct (findEnv_found env name Hin) as [e' He']. congruence.
Qed.

Lemma findEnv_first (pre : list EnvVar.t) e env :
  EnvVar.Name e ∉ names pre -> findEnv (pre ++ e :: env) (EnvVar.Name e) = (e, true).
Proof.
  induction pre as [|e' pre IH]; cbn.
  - by rewrite String.eqb_refl.
  - intros Hnotin. apply not_elem_of_cons in Hnotin as [Hne Hnotin].
    destruct (String.eqb_spec (EnvVar.Name e') (EnvVar.Name e)); [congruence | auto].
Qed.

(** *** The loops, one iteration at a time *)

Lemma existing_fold env existing covered out :
  fold_left (updateEnv_existing env) existing (covered, out)
  = ((existingLoop env covered existing).1, out ++ (existingLoop env covered existing).2).
Proof.
  unfold existingLoop. revert covered out.
  induction existing as [|e existing IH]; intros covered out; cbn.
  - by rewrite app_nil_r.
  - case_bool_decide; [apply IH|].
    destruct (findEnv env (EnvVar.Name e)) as [newer [|]].
    + rewrite IH. rewrite (IH _ ([] ++ [newer])). cbn. by rewrite <- app_assoc.
    + rewrite IH. rewrite (IH _ ([] ++ [e])). cbn. by rewrite <- app_assoc.
Qed.

Lemma existingLoop_nil env covered : existingLoop env covered [] = (covered, []).
Proof. reflexivity. Qed.

Lemma existingLoop_covered env covered e existing :
  EnvVar.Name e ∈ covered ->
  existingLoop env covered (e :: existing) = existingLoop env covered existing.
Proof.
  intros Hin. unfold existingLoop. cbn. by rewrite bool_decide_true.
Qed.

Lemma existingLoop_replaced env covered e existing newer :
  EnvVar.Name e ∉ covered -> findEnv env (EnvVar.Name e) = (newer, true) ->
  existingLoop env covered (e :: existing)
  = ((existingLoop env ({[ EnvVar.Name e ]} ∪ covered) existing).1,
     newer :: (existingLoop env ({[ EnvVar.Name e ]} ∪ covered) existing).2).
Proof.
  intros Hnotin Hfind. unfold existingLoop at 1. cbn.
  rewrite bool_decide_false, Hfind by done. by rewrite existing_fold.
Qed.

Lemma existingLoop_kept env covered e existing other :
  EnvVar.Name e ∉ covered -> findEnv env (EnvVar.Name e) = (other, false) ->
  existingLoop env covered (e :: existing)
  = ((existingLoop env covered existing).1, e :: (existingLoop env covered existing).2).
Proof.
  intros Hnotin Hfind. unfold existingLoop at 1. cbn.
  rewrite bool_decide_false, Hfind by done. by rewrite existing_fold.
Qed.

Lemma env_fold env covered out :
  fold_left updateEnv_env env (covered, out)
  = ((envLoop covered env).1, out ++ (envLoop covered env).2).
Proof.
  unfold envLoop. revert covered out.
  induction env as [|e env IH]; intros covered out; cbn.
  - by rewrite app_nil_r.
  - case_bool_decide; [apply IH|].
    rewrite IH. rewrite (IH _ ([] ++ [e])). cbn. by rewrite <- app_assoc.
Qed.

Lemma envLoop_covered covered e env :
  EnvVar.Name e ∈ covered -> envLoop covered (e :: env) = envLoop covered env.
Proof. intros Hin. unfold envLoop. cbn. by rewrite bool_decide_true. Qed.

Lemma envLoop_appended covered e env :
  EnvVar.Name e ∉ covered ->
  envLoop covered (e :: env)
  = ((envLoop ({[ EnvVar.Name e ]} ∪ covered) env).1,
     e :: (envLoop ({[ EnvVar.Name e ]} ∪ covered) env).2).
Proof.
  intros Hnotin. unfold envLoop at 1. cbn.
  rewrite bool_decide_false by done. by rewrite env_fold.
Qed.

Lemma updateEnv_loops existing env remove :
  updateEnv existing env remove
  = (existingLoop env (list_to_set remove) existing).2
    ++ (envLoop (existingLoop env (list_to_set remove) existing).1 env).2.
Proof.
  unfold updateEnv. cbv zeta. fold (existingLoop env (list_to_set remove) existing).
  destruct (existingLoop _ _ _) as [covered out]. by rewrite env_fold.
Qed.

(** Case analysis on what the first loop does with the entry [e]. *)
Ltac existing_step env covered e :=
  destruct (decide (EnvVar.Name e ∈ covered)) as [Hcov | Hcov];
  [ rewrite (existingLoop_covered env covered e) by done
  | let newer := fresh "newer" in
    let Hfind := fresh "Hfind" in
    destruct (findEnv env (EnvVar.Name e)) as [newer [|]] eqn:Hfind;
    [ rewrite (existingLoop_replaced env covered e _ newer) by done
    | rewrite (existingLoop_kept env covered e _ newer) by done ] ].

Ltac env_step covered e :=
  destruct (decide (EnvVar.Name e ∈ covered)) as [Hcov | Hcov];
  [ rewrite (envLoop_covered covered e) by done
  | rewrite (envLoop_appended covered e) by done ].

(** *** What the loops cover and emit *)

Lemma existingLoop_covers env covered existing :
  covered ⊆ (existingLoop env covered existing).1.
Proof.
  revert covered. induction existing as [|e existing IH]; intros covered; [done|].
  existing_step env covered e; cbn [fst snd]; [apply IH | | apply IH].
  etrans; [|apply IH]. set_solver.
Qed.

Lemma envLoop_covers covered env :
  covered ⊆ (envLoop covered env).1 /\ forall n, n ∈ names env -> n ∈ (envLoop covered env).1.
Proof.
  revert covered. induction env as [|e env IH]; intros covered.
  - split; [done|]. by intros n ?%elem_of_nil.
  - env_step covered e; cbn [fst snd].
    + pose proof (IH covered) as [Hsub Hall]. split; [done|].
      intros n [->|Hin]%elem_of_cons; [by apply Hsub | by apply Hall].
    + pose proof (IH ({[ EnvVar.Name e ]} ∪ covered)) as [Hsub Hall].
      split; [intros x Hx; by apply Hsub, elem_of_union_r|].
      intros n [->|Hin]%elem_of_cons; [|by apply Hall].
      by apply Hsub, elem_of_union_l, elem_of_singleton.
Qed.

Lemma envLoop_all_covered covered env :
  (forall n, n ∈ names env -> n ∈ covered) -> envLoop covered env = (covered, []).
Proof.
  induction env as [|e env IH]; intros Hall; [done|].
  rewrite envLoop_covered by (apply Hall; left).
  apply IH. intros n Hin. apply Hall. by right.
Qed.

Lemma existingLoop_emits env covered existing e :
  e ∈ (existingLoop env covered existing).2 -> EnvVar.Name e ∉ covered.
Proof.
  revert covered. induction existing as [|e' existing IH]; intros covered.
  - by intros ?%elem_of_nil.
  - existing_step env covered e'; cbn [fst snd].
    + apply IH.
    + intros [->|Hin]%elem_of_cons.
      * by rewrite (findEnv_name _ _ _ Hfind).
      * apply IH in Hin. set_solver.
    + intros [->|Hin]%elem_of_cons; [done | by apply IH].
Qed.

Lemma envLoop_emits covered env e :
  e ∈ (envLoop covered env).2 -> EnvVar.Name e ∉ covered.
Proof.
  revert covered. induction env as [|e' env IH]; intros covered.
  - by intros ?%elem_of_nil.
  - env_step covered e'; cbn [fst snd]; [apply IH|].
    intros [->|Hin]%elem_of_cons; [done|]. apply IH in Hin. set_solver.
Qed.

(** *** Running the loops on their own output *)

Lemma existingLoop_app env covered (l1 l2 : list EnvVar.t) :
  existingLoop env covered (l1 ++ l2)
  = ((existingLoop env (existingLoop env covered l1).1 l2).1,
     (existingLoop env covered l1).2 ++ (existingLoop env (existingLoop env covered l1).1 l2).2).
Proof.
  unfold existingLoop at 1. rewrite fold_left_app.
  fold (existingLoop env covered l1).
  destruct (existingLoop env covered l1) as [c1 o1]. by rewrite existing_fold.
Qed.

Lemma existingLoop_stable env covered existing :
  existingLoop env covered (existingLoop env covered existing).2
  = existingLoop env covered existing.
Proof.
  revert covered. induction existing as [|e existing IH]; intros covered; [done|].
  existing_step env covered e; cbn [fst snd].
  - apply IH.
  - pose proof (findEnv_name _ _ _ Hfind) as Hname.
    rewrite (existingLoop_replaced env covered newer _ newer) by (by rewrite Hname).
    by rewrite Hname, IH.
  - by rewrite (existingLoop_kept env covered e _ newer), IH.
Qed.

Lemma existingLoop_envLoop (pre : list EnvVar.t) env covered :
  (forall n, n ∈ names pre -> n ∈ covered) ->
  existingLoop (pre ++ env) covered (envLoop covered env).2 = envLoop covered env.
Proof.
  revert pre covered. induction env as [|e env IH]; intros pre covered Hpre; [done|].
  env_step covered e; cbn [fst snd].
  - replace (pre ++ e :: env) with ((pre ++ [e]) ++ env) by (by rewrite <- app_assoc).
    apply IH. intros n. unfold names. rewrite fmap_app. cbn.
    intros [Hin | ->%list_elem_of_singleton]%elem_of_app; [by apply Hpre | done].
  - assert (EnvVar.Name e ∉ names pre) as Hfresh by (intros Hin; by apply Hcov, Hpre).
    rewrite (existingLoop_replaced (pre ++ e :: env) covered e _ e)
      by (done || by apply findEnv_first).
    replace (pre ++ e :: env) with ((pre ++ [e]) ++ env) by (by rewrite <- app_assoc).
    rewrite IH; [done|]. intros n. unfold names. rewrite fmap_app. cbn.
    intros [Hin | ->%list_elem_of_singleton]%elem_of_app; [|set_solver].
    apply elem_of_union_r. by apply Hpre.
Qed.

Lemma updateEnv_idempotent existing env remove :
  updateEnv (updateEnv existing env remove) env remove = updateEnv existing env remove.
Proof.
  rewrite (updateEnv_loops (updateEnv existing env remove)).
  rewrite (updateEnv_loops existing).
  set (R := list_to_set remove : gset string).
  rewrite existingLoop_app, existingLoop_stable. cbn [fst snd].
  destruct (existingLoop env R existing) as [c1 o1] eqn:Hfirst. cbn [fst snd].
  pose proof (existingLoop_envLoop [] env c1) as Hsecond. cbn [app] in Hsecond.
  rewrite Hsecond by (by intros n ?%elem_of_nil).
  rewrite (envLoop_all_covered (envLoop c1 env).1 env); [cbn [snd]; by rewrite app_nil_r|].
  apply envLoop_covers.
Qed.

(** *** The loops on lists without repeated names *)

Lemma filter_ext_elem {A} (P1 P2 : A -> Prop)
  `{!forall x, Decision (P1 x), !forall x, Decision (P2 x)} (l : list A) :
  (forall x, x ∈ l -> P1 x <-> P2 x) -> filter P1 l = filter P2 l.
Proof.
  induction l as [|a l IH]; intros Hiff; [done|].
  rewrite !filter_cons, IH by (intros x Hx; apply Hiff; by right).
  apply decide_ext, Hiff. by left.
Qed.

Lemma upsert_found env e newer : findEnv env (EnvVar.Name e) = (newer, true) -> upsert env e = newer.
Proof. unfold upsert. by intros ->. Qed.

Lemma upsert_missing env e other : findEnv env (EnvVar.Name e) = (other, false) -> upsert env e = e.
Proof. unfold upsert. by intros ->. Qed.

Lemma existingLoop_distinct env covered existing :
  NoDup (names existing) ->
  (existingLoop env covered existing).2
  = upsert env <$> filter (fun e => EnvVar.Name e ∉ covered) existing.
Proof.
  revert covered. induction existing as [|e existing IH]; intros covered Hnodup; [done|].
  apply NoDup_cons in Hnodup as [Hfresh Hnodup].
  existing_step env covered e; cbn [fst snd].
  - rewrite filter_cons_False by (intros Hn; by apply Hn). by apply IH.
  - rewrite filter_cons_True by done. rewrite fmap_cons, (upsert_found _ _ _ Hfind).
    rewrite IH by done. f_equal. f_equal. apply filter_ext_elem. intros x Hx.
    assert (EnvVar.Name x <> EnvVar.Name e).
    { intros Heq. apply Hfresh. rewrite <- Heq. by apply list_elem_of_fmap_2. }
    rewrite not_elem_of_union, not_elem_of_singleton. tauto.
  - rewrite filter_cons_True by done. rewrite fmap_cons, (upsert_missing _ _ _ Hfind).
    by rewrite IH.
Qed.

Lemma existingLoop_covered_iff env covered existing n :
  n ∈ names env ->
  n ∈ (existingLoop env covered existing).1 <-> n ∈ covered \/ n ∈ names existing.
Proof.
  intros Henv. revert covered.
  induction existing as [|e existing IH]; intros covered.
  - cbn. rewrite elem_of_nil. tauto.
  - unfold names. rewrite fmap_cons, elem_of_cons. fold (names existing).
    existing_step env covered e; cbn [fst snd]; rewrite IH.
    + split; [tauto|]. intros [?|[->|?]]; tauto.
    + rewrite elem_of_union, elem_of_singleton. tauto.
    + split; [tauto|]. intros [?|[->|?]]; [tauto | | tauto].
      by apply findEnv_missing in Hfind.
Qed.

Lemma envLoop_distinct covered env :
  NoDup (names env) ->
  (envLoop covered env).2 = filter (fun e => EnvVar.Name e ∉ covered) env.
Proof.
  revert covered. induction env as [|e env IH]; intros covered Hnodup; [done|].
  apply NoDup_cons in Hnodup as [Hfresh Hnodup].
  env_step covered e; cbn [fst snd].
  - rewrite filter_cons_False by (intros Hn; by apply Hn). by apply IH.
  - rewrite filter_cons_True by done. rewrite IH by done. f_equal.
    apply filter_ext_elem. intros x Hx.
    assert (EnvVar.Name x <> EnvVar.Name e).
    { intros Heq. apply Hfresh. rewrite <- Heq. by apply list_elem_of_fmap_2. }
    rewrite not_elem_of_union, not_elem_of_singleton. tauto.
Qed.

Lemma updateEnv_distinct existing env remove :
  NoDup (names existing) -> NoDup (names env) ->
  updateEnv existing env remove
  = (upsert env <$> filter (fun e => EnvVar.Name e ∉ remove) existing)
    ++ filter (fun e => (EnvVar.Name e ∉ remove) /\ (EnvVar.Name e ∉ names existing)) env.
Proof.
  intros Hexisting Henv. rewrite updateEnv_loops.
  rewrite existingLoop_distinct, envLoop_distinct by done. f_equal.
  - f_equal. apply list_filter_iff. intros e. by rewrite elem_of_list_to_set.
  - apply filter_ext_elem. intros e He.
    rewrite existingLoop_covered_iff by (by apply list_elem_of_fmap_2).
    rewrite elem_of_list_to_set. tauto.
Qed.

Lemma updateEnv_not_removed existing env remove e :
  e ∈ updateEnv existing env remove -> EnvVar.Name e ∉ remove.
Proof.
  rewrite updateEnv_loops. intros [Hin | Hin]%elem_of_app.
  - apply existingLoop_emits in Hin. by rewrite elem_of_list_to_set in Hin.
  - apply envLoop_emits in Hin. intros Hrem. apply Hin, existingLoop_covers.
    by apply elem_of_list_to_set.
Qed.

(** *** The loops on any lists *)

Lemma findEnv_upserted env name e : findEnv env name = (e, true) -> name ∈ names env.
Proof.
  induction env as [|e' env IH]; cbn; [done|].
  destruct (String.eqb_spec (EnvVar.Name e') name) as [<- | Hne].
  - intros _. left.
  - intros Hfind. right. by apply IH.
Qed.

Lemma firstOfName_filter (once : string -> bool) (n : string) (l : list EnvVar.t) :
  filter (fun x => EnvVar.Name x <> n) (firstOfName once l)
  = firstOfName once (filter (fun x => EnvVar.Name x <> n) l).
Proof.
  induction l as [|e l IH]; [done|]. cbn [firstOfName].
  destruct (decide (EnvVar.Name e = n)) as [Heq | Hne].
  - rewrite !filter_cons_False by (intros Hn; by apply Hn).
    destruct (once (EnvVar.Name e)); [|exact IH].
    rewrite Heq, list_filter_filter, <- IH.
    apply list_filter_iff. intros x. tauto.
  - rewrite !filter_cons_True by done. cbn [firstOfName]. f_equal.
    destruct (once (EnvVar.Name e)); [|exact IH].
    rewrite <- IH, !list_filter_filter. apply list_filter_iff. intros x. tauto.
Qed.

Lemma filter_covered_name covered n (l : list EnvVar.t) :
  filter (fun e => EnvVar.Name e ∉ ({[ n ]} ∪ covered : gset string)) l
  = filter (fun x => EnvVar.Name x <> n) (filter (fun e => EnvVar.Name e ∉ covered) l).
Proof.
  rewrite list_filter_filter. apply list_filter_iff. intros x.
  rewrite not_elem_of_union, not_elem_of_singleton. tauto.
Qed.

Lemma existingLoop_closed env covered existing :
  (existingLoop env covered existing).2
  = upsert env
    <$> firstOfName (fun n => bool_decide (n ∈ names env))
          (filter (fun e => EnvVar.Name e ∉ covered) existing).
Proof.
  revert covered. induction existing as [|e existing IH]; intros covered; [done|].
  existing_step env covered e; cbn [fst snd].
  - rewrite filter_cons_False by (intros Hn; by apply Hn). apply IH.
  - rewrite filter_cons_True by done. cbn [firstOfName].
    rewrite bool_decide_true by (by eapply findEnv_upserted).
    rewrite fmap_cons, (upsert_found _ _ _ Hfind). f_equal.
    by rewrite IH, filter_covered_name, firstOfName_filter.
  - rewrite filter_cons_True by done. cbn [firstOfName].
    rewrite bool_decide_false by (by eapply findEnv_missing).
    rewrite fmap_cons, (upsert_missing _ _ _ Hfind). f_equal. apply IH.
Qed.

Lemma envLoop_closed covered env :
  (envLoop covered env).2
  = firstOfName (fun _ => true) (filter (fun e => EnvVar.Name e ∉ covered) env).
Proof.
  revert covered. induction env as [|e env IH]; intros covered; [done|].
  env_step covered e; cbn [fst snd].
  - rewrite filter_cons_False by (intros Hn; by apply Hn). apply IH.
  - rewrite filter_cons_True by done. cbn [firstOfName]. f_equal.
    by rewrite IH, filter_covered_name, firstOfName_filter.
Qed.

Lemma updateEnv_closed existing env remove :
  updateEnv existing env remove
  = (upsert env
     <$> firstOfName (fun n => bool_decide (n ∈ names env))
           (filter (fun e => EnvVar.Name e ∉ remove) existing))
    ++ firstOfName (fun _ => true)
         (filter (fun e => (EnvVar.Name e ∉ remove) /\ (EnvVar.Name e ∉ names existing)) env).
Proof.
  rewrite updateEnv_loops, existingLoop_closed, envLoop_closed. f_equal.
  - do 2 f_equal. apply list_filter_iff. intros e. by rewrite elem_of_list_to_set.
  - f_equal. apply filter_ext_elem. intros e He.
    rewrite existingLoop_covered_iff by (by apply list_elem_of_fmap_2).
    rewrite elem_of_list_to_set. tauto.
Qed.

(** C8, as amended.  Applying [updateEnv] a second time with the same
    upserts and removals changes nothing.  On any input the result is the
    existing list without the removed names, where an upserted name keeps
    its first entry only and that entry is replaced at its place by the
    first upsert of the name, followed by the upserts whose name is neither
    removed nor already present, in the order given, the first of each name
    only.  When the existing variables have distinct names and so have the
    upserts, no entry is dropped for being repeated: every existing entry
    that is not removed stands at its place, replaced by the upsert of the
    same name if there is one, and every upsert whose name is neither removed
    nor present is appended. *)
Theorem updateEnv_idempotent_upsert :
  (forall existing env remove,
      updateEnv (updateEnv existing env remove) env remove = updateEnv existing env remove)
  /\ (forall existing env remove,
      updateEnv existing env remove
      = (upsert env
         <$> firstOfName (fun n => bool_decide (n ∈ names env))
               (filter (fun e => EnvVar.Name e ∉ remove) existing))
        ++ firstOfName (fun _ => true)
             (filter (fun e => (EnvVar.Name e ∉ remove) /\ (EnvVar.Name e ∉ names existing))
                     env))
  /\ (forall existing env remove,
      NoDup (names existing) -> NoDup (names env) ->
      updateEnv existing env remove
      = (upsert env <$> filter (fun e => EnvVar.Name e ∉ remove) existing)
        ++ filter (fun e => (EnvVar.Name e ∉ remove) /\ (EnvVar.Name e ∉ names existing)) env).
Proof.
  split; [|split].
  - apply updateEnv_idempotent.
  - apply updateEnv_closed.
  - apply updateEnv_distinct.
Qed.

(** C9.  A name of the removal set never appears in the result of
    [updateEnv], wherever else it occurs: an existing variable of that name
    is dropped, and an upsert of that name is neither put in its place nor
    appended. *)
Theorem updateEnv_removal_precedence existing env remove (name : string) :
  name ∈ remove -> name ∉ names (updateEnv existing env remove).
Proof.
  intros Hrem (e & -> & Hin)%list_elem_of_fmap.
  by apply updateEnv_not_removed in Hin.
Qed.


(** ** The restart marker *)

Variable now : string.

Local Abbreviation marker := (EnvVar.mk RestartedEnv now None).

Lemma findEnv_marker name e ok :
  findEnv [marker] name = (e, ok) -> ok = true <-> name = RestartedEnv.
Proof.
  cbn [findEnv EnvVar.Name].
  destruct (String.eqb_spec RestartedEnv name) as [<- | Hne]; intros ?; simplify_eq.
  - done.
  - split; [done | congruence].
Qed.

Lemma findEnv_marker_found name e : findEnv [marker] name = (e, true) -> e = marker.
Proof.
  cbn [findEnv EnvVar.Name]. by destruct (String.eqb RestartedEnv name); intros ?; simplify_eq.
Qed.

Lemma findEnv_app (l1 l2 : list EnvVar.t) name :
  findEnv (l1 ++ l2) name
  = if bool_decide (name ∈ names l1) then findEnv l1 name else findEnv l2 name.
Proof.
  induction l1 as [|e l1 IH].
  - rewrite bool_decide_false; [done | apply not_elem_of_nil].
  - cbn [app findEnv]. unfold names. rewrite fmap_cons. fold (names l1).
    destruct (String.eqb_spec (EnvVar.Name e) name) as [<- | Hne].
    + rewrite bool_decide_true; [done | by left].
    + rewrite IH. destruct (decide (name ∈ names l1)) as [Hin | Hnotin].
      * rewrite !bool_decide_true; [done | by right | done].
      * rewrite !bool_decide_false; [done | | done].
        intros [-> | Hin]%elem_of_cons; done.
Qed.

Lemma existingLoop_names env covered (existing : list EnvVar.t) name :
  name ∈ names (existingLoop env covered existing).2 -> name ∈ names existing.
Proof.
  revert covered. induction existing as [|e existing IH]; intros covered; [done|].
  unfold names at 2. rewrite fmap_cons. fold (names existing).
  existing_step env covered e; cbn [fst snd].
  - intros Hin. right. by apply (IH covered).
  - unfold names at 1. rewrite fmap_cons. fold (names (existingLoop env
      ({[EnvVar.Name e]} ∪ covered) existing).2).
    rewrite (findEnv_name _ _ _ Hfind).
    intros [-> | Hin]%elem_of_cons; [by left | right; by apply (IH _ Hin)].
  - unfold names at 1. rewrite fmap_cons. fold (names (existingLoop env covered existing).2).
    intros [-> | Hin]%elem_of_cons; [by left | right; by apply (IH _ Hin)].
Qed.

(** The first loop keeps every variable that is not the marker. *)
Lemma restart_keeps_others covered (existing : list EnvVar.t) :
  covered ⊆ {[ RestartedEnv ]} ->
  filter (fun e => EnvVar.Name e <> RestartedEnv) (existingLoop [marker] covered existing).2
  = filter (fun e => EnvVar.Name e <> RestartedEnv) existing.
Proof.
  revert covered. induction existing as [|e existing IH]; intros covered Hsub; [done|].
  existing_step constr:([marker]) covered e; cbn [fst snd].
  - rewrite filter_cons_False; [by apply IH|].
    intros Hne. apply Hne. apply Hsub in Hcov. by apply elem_of_singleton in Hcov.
  - pose proof (proj1 (findEnv_marker _ _ _ Hfind) eq_refl) as Hname.
    assert (newer = marker) as -> by (by apply findEnv_marker_found in Hfind).
    rewrite !filter_cons_False by (intros Hne; by apply Hne).
    apply IH. rewrite Hname. intros x [->%elem_of_singleton | Hx%Hsub]%elem_of_union; [|done].
    by apply elem_of_singleton.
  - assert (EnvVar.Name e <> RestartedEnv) as Hne.
    { intros Heq. by pose proof (proj2 (findEnv_marker _ _ _ Hfind) Heq). }
    rewrite !filter_cons_True by done. f_equal. by apply IH.
Qed.

(** When a variable carries the marker's name, the first loop puts the
    marker at the place of the first one. *)
Lemma restart_replaces_first covered (existing : list EnvVar.t) :
  RestartedEnv ∉ covered -> RestartedEnv ∈ names existing ->
  findEnv (existingLoop [marker] covered existing).2 RestartedEnv = (marker, true).
Proof.
  revert covered. induction existing as [|e existing IH]; intros covered Hfresh.
  - by intros ?%elem_of_nil.
  - unfold names. rewrite fmap_cons. fold (names existing). intros Hin.
    existing_step constr:([marker]) covered e; cbn [fst snd].
    + apply IH; [done|]. apply elem_of_cons in Hin as [Heq | Hin]; [|done].
      rewrite <- Heq in Hcov. done.
    + assert (newer = marker) as -> by (by apply findEnv_marker_found in Hfind).
      reflexivity.
    + assert (EnvVar.Name e <> RestartedEnv) as Hne.
      { intros Heq. by pose proof (proj2 (findEnv_marker _ _ _ Hfind) Heq). }
      cbn [findEnv]. rewrite (proj2 (String.eqb_neq _ _) Hne).
      apply IH; [done|]. apply elem_of_cons in Hin as [Heq | Hin]; [congruence | done].
Qed.

Lemma restart_marker_present (existing : list EnvVar.t) :
  findEnv (updateEnv existing [marker] []) RestartedEnv = (marker, true).
Proof.
  rewrite updateEnv_loops, findEnv_app. cbn [list_to_set foldr].
  destruct (decide (RestartedEnv ∈ names existing)) as [Hin | Hnotin].
  - assert (RestartedEnv ∈ names (existingLoop [marker] ∅ existing).2) as Hout.
    { pose proof (restart_replaces_first ∅ existing (not_elem_of_empty _) Hin) as Hfind.
      apply findEnv_name in Hfind as Hname.
      destruct (decide (RestartedEnv ∈ names (existingLoop [marker] ∅ existing).2));
        [done|].
      exfalso. revert Hfind. generalize (existingLoop [marker] ∅ existing).2 n.
      intros l Hl Hfind. apply Hl. clear Hl.
      induction l as [|e l IH]; cbn in Hfind; [done|].
      destruct (String.eqb_spec (EnvVar.Name e) RestartedEnv) as [Heq | Hne].
      - rewrite <- Heq. by left.
      - right. by apply IH. }
    rewrite bool_decide_true by done. by apply restart_replaces_first.
  - rewrite bool_decide_false
      by (intros Hout; apply Hnotin; by apply existingLoop_names in Hout).
    assert (RestartedEnv ∉ (existingLoop [marker] ∅ existing).1) as Hfresh.
    { rewrite existingLoop_covered_iff by (by left).
      intros [?%not_elem_of_empty | ?]; done. }
    rewrite (envLoop_appended _ marker []) by done. cbn [snd findEnv EnvVar.Name].
    by rewrite String.eqb_refl.
Qed.

Lemma restart_others_kept (existing : list EnvVar.t) :
  filter (fun e => EnvVar.Name e <> RestartedEnv) (updateEnv existing [marker] [])
  = filter (fun e => EnvVar.Name e <> RestartedEnv) existing.
Proof.
  rewrite updateEnv_loops, filter_app. cbn [list_to_set foldr].
  rewrite restart_keeps_others by done.
  assert (filter (fun e => EnvVar.Name e <> RestartedEnv)
            (envLoop (existingLoop [marker] ∅ existing).1 [marker]).2 = []) as ->;
    [|by rewrite app_nil_r].
  env_step (existingLoop [marker] ∅ existing).1 constr:(marker); cbn [fst snd]; [done|].
  by rewrite filter_cons_False by (intros Hne; by apply Hne).
Qed.

(** C10.  [UpdateResourceEnv] leaves an object of a type other than
    CloneSet and Advanced StatefulSet as it is.  For these two types it
    changes nothing but the [Env] of the containers of the pod template:
    with every such [Env] emptied, the object before and the object after
    are the same.  Each [Env] becomes [updateEnv] of itself with the marker
    as only upsert and nothing removed: the marker RESTARTED_AT is in it
    with the time of the call as value, and the variables of any other name
    are those it had, in the same order. *)
Theorem UpdateResourceEnv_frame :
  (forall object, handled object = false -> UpdateResourceEnv now object = object)
  /\ (forall object,
      Object_eraseEnv (UpdateResourceEnv now object) = Object_eraseEnv object)
  /\ (forall object,
      Object_containerEnvs (UpdateResourceEnv now object)
      = (fun env => updateEnv env [marker] []) <$> Object_containerEnvs object)
  /\ (forall env,
      findEnv (updateEnv env [marker] []) RestartedEnv = (marker, true)
      /\ filter (fun e => EnvVar.Name e <> RestartedEnv) (updateEnv env [marker] [])
         = filter (fun e => EnvVar.Name e <> RestartedEnv) env).
Proof.
  split; [|split; [|split]].
  - by intros [].
  - intros [[meta [replicas [tmeta [inits containers policy node]] strategy] status]
           |[meta [replicas [tmeta [inits containers policy node]] strategy] status]
           | | | |]; try reflexivity; cbn.
    + unfold CloneSet_setTemplate, eraseEnv, restartContainers, PodTemplateSpec_setContainers.
      cbn. do 5 f_equal. rewrite List.map_map. by apply List.map_ext.
    + unfold AdvancedStatefulSet_setTemplate, eraseEnv, restartContainers,
        PodTemplateSpec_setContainers.
      cbn. do 5 f_equal. rewrite List.map_map. by apply List.map_ext.
  - intros [[meta [replicas [tmeta [inits containers policy node]] strategy] status]
           |[meta [replicas [tmeta [inits containers policy node]] strategy] status]
           | | | |]; try reflexivity; cbn.
    + unfold containerEnvs. cbn [PodTemplateSpec.Spec PodSpec.Containers].
      induction containers as [|c containers IH]; [done|].
      cbn [List.map]. rewrite fmap_cons. f_equal. exact IH.
    + unfold containerEnvs. cbn [PodTemplateSpec.Spec PodSpec.Containers].
      induction containers as [|c containers IH]; [done|].
      cbn [List.map]. rewrite fmap_cons. f_equal. exact IH.
  - intros env. split; [apply restart_marker_present | apply restart_others_kept].
Qed.

End UpdateEnv.

(** ** The first pod of a selector *)

Section Sorting.

Context {A : Type}.

Lemma delete_insert_same (l : list A) (i : nat) (x : A) :
  delete i (<[i := x]> l) = delete i l.
Proof. by rewrite !delete_take_drop, take_insert_ge, drop_insert_lt by lia. Qed.

Lemma insert_Permutation (l : list A) (i : nat) (x : A) :
  (i < length l)%nat -> Permutation (<[i := x]> l) (x :: delete i l).
Proof.
  intros Hi. rewrite <- (delete_insert_same l i x).
  apply delete_Permutation. by apply list_lookup_insert_eq.
Qed.

(** A swap moves elements and neither adds nor drops one. *)
Lemma Swap_Permutation (i j : nat) (data : list A) : Permutation (sort.Swap i j data) data.
Proof.
  unfold sort.Swap.
  destruct (data !! i) as [x|] eqn:Hi; [|done].
  destruct (data !! j) as [y|] eqn:Hj; [|done].
  pose proof (lookup_lt_Some _ _ _ Hi) as Hilt.
  pose proof (lookup_lt_Some _ _ _ Hj) as Hjlt.
  assert (<[j := x]> data !! i = Some x) as Hi'.
  { destruct (decide (i = j)) as [-> | Hne].
    - by apply list_lookup_insert_eq.
    - by rewrite list_lookup_insert_ne. }
  etrans; [apply insert_Permutation; by rewrite length_insert|].
  etrans; [|symmetry; apply (delete_Permutation data j y Hj)].
  apply Permutation_cons; [done|].
  apply (Permutation_cons_inv (a := x)).
  etrans; [symmetry; apply (delete_Permutation _ i x Hi')|].
  by apply insert_Permutation.
Qed.

Lemma swapAll_Permutation (swaps : list (nat * nat)) (data : list A) :
  Permutation (sort.swapAll swaps data) data.
Proof.
  unfold sort.swapAll. revert data.
  induction swaps as [|swap swaps IH]; intros data; cbn [fold_left]; [done|].
  etrans; [apply IH | apply Swap_Permutation].
Qed.

(** Whatever the algorithm, [sort.Sort] permutes the slice. *)
Lemma Sort_Permutation (algorithm : sort.Algorithm A) (less : A -> A -> bool) (data : list A) :
  Permutation (sort.Sort algorithm less data) data.
Proof. apply swapAll_Permutation. Qed.

Lemma Sort_length (algorithm : sort.Algorithm A) (less : A -> A -> bool) (data : list A) :
  length (sort.Sort algorithm less data) = length data.
Proof. apply Permutation_length, Sort_Permutation. Qed.

(** In a slice in ascending order of an irreflexive [less], no element is
    [less] than the first. *)
Lemma ascending_head_least (less : A -> A -> bool) (data : list A) (x : A) :
  sort.ascending less data -> (forall a, less a a = false) ->
  head data = Some x -> forall y, y ∈ data -> less y x = false.
Proof.
  intros Hsorted Hirrefl Hhead y Hy.
  destruct data as [|x' data]; [done|]. cbn in Hhead. simplify_eq.
  apply StronglySorted_inv in Hsorted as [_ Hx].
  apply elem_of_cons in Hy as [-> | Hy]; [apply Hirrefl|].
  rewrite Forall_forall in Hx. by apply Hx.
Qed.

End Sorting.

Lemma until_first (skipped : list watch.Event.t) event rest ending lastEvent :
  Forall (fun ev => qualifies ev = false) skipped -> qualifies event = true ->
  watchtools.until (skipped ++ event :: rest) ending lastEvent GetFirstPod_condition
  = (Some event, None).
Proof.
  intros Hskipped Hevent. revert lastEvent.
  induction Hskipped as [|ev skipped Hev _ IH]; intros lastEvent; cbn.
  - unfold qualifies in Hevent. cbn in Hevent. by rewrite Hevent.
  - unfold qualifies in Hev. cbn in Hev. rewrite Hev. apply IH.
Qed.

Lemma until_none (events : list watch.Event.t) ending lastEvent :
  Forall (fun ev => qualifies ev = false) events ->
  snd (watchtools.until events ending lastEvent GetFirstPod_condition)
  = Some (ending_error ending).
Proof.
  intros Hevents. revert lastEvent.
  induction Hevents as [|ev events Hev _ IH]; intros lastEvent; cbn.
  - by destruct ending.
  - unfold qualifies in Hev. cbn in Hev. rewrite Hev. apply IH.
Qed.

Lemma append_all {A} (l acc : list A) : fold_left (fun pods pod => pods ++ [pod]) l acc = acc ++ l.
Proof.
  revert acc. induction l as [|x l IH]; intros acc; cbn.
  - by rewrite app_nil_r.
  - by rewrite IH, <- app_assoc.
Qed.

(** C7.  When the list returns pods, [GetFirstPod] makes no other call: it
    returns the pod that stands first in the listed pods once [sort.Sort]
    has run on them with the caller's ordering, a listed pod, together with
    the number of listed pods; whatever algorithm [sort.Sort] runs, if it
    leaves the pods in ascending order of an irreflexive ordering, no listed
    pod precedes the returned one.  When the list is empty, it opens a watch
    from the resource version of the list, waits and stops the watch: the
    first Added or Modified event that carries a pod gives that pod with
    count 1; when the wait ends with no such event, because the channel is
    closed or the context is done, the error of the wait is returned. *)
Theorem GetFirstPod_list_then_watch
  (algorithm : sort.Algorithm corev1.Pod.t)
  (client : PodsGetter.t) (namespace selector : string) (timeout : Z)
  (sortBy : list corev1.Pod.t -> corev1.Pod.t -> corev1.Pod.t -> bool)
  (podList : corev1.PodList.t) :
  let options := metav1.ListOptions.mk selector "" in
  let items := corev1.PodList.Items podList in
  let watchOptions := metav1.ListOptions.mk selector (corev1.PodList.ResourceVersion podList) in
  let watched :=
    [CallList namespace options; CallWatch namespace watchOptions; CallUntil timeout; CallStop] in
  PodsGetter.List client namespace options = inr podList ->
  (items <> [] ->
   exists pod,
     GetFirstPod algorithm client namespace selector timeout sortBy
     = ([CallList namespace options], (Some pod, Z.of_nat (length items), None))
     /\ head (sort.Sort algorithm (sortBy items) items) = Some pod
     /\ (pod ∈ items)
     /\ (sort.ascending (sortBy items) (sort.Sort algorithm (sortBy items) items) ->
         (forall a, sortBy items a a = false) ->
         forall other, other ∈ items -> sortBy items other pod = false))
  /\ (items = [] ->
      forall w events ending,
        PodsGetter.Watch client namespace watchOptions = inr w ->
        watch.Interface.ResultChan w timeout = (events, ending) ->
        (forall skipped event rest pod,
            events = skipped ++ event :: rest ->
            Forall (fun ev => qualifies ev = false) skipped ->
            qualifies event = true ->
            watch.Event.Object event = watch.IsPod pod ->
            GetFirstPod algorithm client namespace selector timeout sortBy
            = (watched, (Some pod, 1, None)))
        /\ (Forall (fun ev => qualifies ev = false) events ->
            GetFirstPod algorithm client namespace selector timeout sortBy
            = (watched, (None, 0, Some (ending_error ending))))).
Proof.
  intros options items watchOptions watched Hlist.
  subst options items watchOptions watched.
  unfold GetFirstPod. cbv zeta. rewrite Hlist, append_all.
  cbn [app metav1.ListOptions.LabelSelector].
  set (items := corev1.PodList.Items podList). split.
  - intros Hne.
    assert ((0 <? Z.of_nat (length items)) = true) as ->.
    { apply Z.ltb_lt. destruct items; [done | cbn; lia]. }
    destruct (sort.Sort algorithm (sortBy items) items) as [|pod sorted] eqn:Hsorted.
    { apply (f_equal length) in Hsorted. rewrite Sort_length in Hsorted.
      destruct items; [done | discriminate]. }
    exists pod. split; [done|]. split; [done|].
    assert (pod ∈ items) as Hin.
    { eapply elem_of_Permutation_proper;
        [symmetry; apply (Sort_Permutation algorithm (sortBy items))|].
      rewrite Hsorted. by left. }
    split; [done|].
    intros Hascending Hirrefl other Hother.
    apply (ascending_head_least (sortBy items) (pod :: sorted)); [done | done | done |].
    rewrite <- Hsorted.
    eapply elem_of_Permutation_proper; [apply (Sort_Permutation algorithm (sortBy items)) | done].
  - intros Hempty w events ending Hwatch Hchan. rewrite Hempty.
    cbn [length Z.of_nat Z.ltb Z.compare].
    rewrite Hwatch. unfold watchtools.UntilWithoutRetry. rewrite Hchan. split.
    + intros skipped event rest pod -> Hskipped Hevent Hobject.
      rewrite until_first by done.
      destruct event as [type object]. cbn in Hobject. by rewrite Hobject.
    + intros Hnone. pose proof (until_none events ending None Hnone) as Huntil.
      destruct (watchtools.until _ _ _ _) as [event e]. cbn in Huntil. by rewrite Huntil.
Qed.

(** ** The helpers on the sample objects *)

(** Three pods are listed and sorted by insertion: the newest is returned
    with count 3, no watch is opened and no listed pod is newer.  No pod is
    listed: the watch is opened from version "41" and the first Modified
    event gives its pod with count 1. *)
Lemma GetFirstPod_list_then_watch_witness :
  GetFirstPod sort.insertionSort (sample_client three_pods sample_watch)
    "default" "app=web" 20 newest_first
  = ([CallList "default" (metav1.ListOptions.mk "app=web" "")],
     (Some (sample_pod "web-2" 30), 3, None))
  /\ (forall other, other ∈ three_pods ->
      newest_first three_pods other (sample_pod "web-2" 30) = false)
  /\ GetFirstPod sort.insertionSort (sample_client [] sample_watch)
       "default" "app=web" 20 newest_first
     = ([CallList "default" (metav1.ListOptions.mk "app=web" "");
         CallWatch "default" (metav1.ListOptions.mk "app=web" "41");
         CallUntil 20; CallStop],
        (Some (sample_pod "web-1" 20), 1, None)).
Proof.
  destruct (GetFirstPod_list_then_watch sort.insertionSort
              (sample_client three_pods sample_watch)
              "default" "app=web" 20 newest_first (corev1.PodList.mk "41" three_pods)
              eq_refl) as [Hlisted _].
  destruct Hlisted as (pod & Hcall & Hhead & _ & Hleast); [discriminate|].
  vm_compute in Hhead. injection Hhead as <-.
  split; [exact Hcall|]. split.
  - apply Hleast.
    + vm_compute. repeat constructor.
    + intros a. apply Z.ltb_irrefl.
  - destruct (GetFirstPod_list_then_watch sort.insertionSort (sample_client [] sample_watch)
                "default" "app=web" 20 newest_first (corev1.PodList.mk "41" [])
                eq_refl) as [_ Hwatched].
    destruct (Hwatched eq_refl sample_watch _ _ eq_refl eq_refl) as [Hevent _].
    apply (Hevent [watch.Event.mk watch.Deleted (watch.IsPod (sample_pod "web-0" 10))]
                  (watch.Event.mk watch.Modified (watch.IsPod (sample_pod "web-1" 20)))
                  [watch.Event.mk watch.Added (watch.IsPod (sample_pod "web-2" 30))]);
      [reflexivity | repeat constructor | reflexivity | reflexivity].
Defined.

(** Distinct names: B is replaced where it stands, C is removed although
    an upsert carries its name, D is appended. *)
Lemma updateEnv_idempotent_upsert_witness :
  let existing := [corev1.EnvVar.mk "A" "1" None; corev1.EnvVar.mk "B" "2" None;
                   corev1.EnvVar.mk "C" "3" None] in
  let env := [corev1.EnvVar.mk "D" "4" None; corev1.EnvVar.mk "B" "9" None;
              corev1.EnvVar.mk "C" "0" None] in
  updateEnv existing env ["C"]
  = [corev1.EnvVar.mk "A" "1" None; corev1.EnvVar.mk "B" "9" None;
     corev1.EnvVar.mk "D" "4" None].
Proof.
  intros existing env.
  rewrite (proj2 (proj2 updateEnv_idempotent_upsert) existing env ["C"]);
    [reflexivity | |]; apply (bool_decide_unpack _); vm_compute; exact I.
Defined.

(** C8 fails on repeated names.  The upsert of B replaces the first
    existing B and the second existing B is dropped, where replacing every
    same-named entry in place would give B=9, X=1, B=9; of two upserts named
    D, absent from the existing list, only the first is appended. *)
Lemma updateEnv_repeated_names :
  let existing := [corev1.EnvVar.mk "B" "2" None; corev1.EnvVar.mk "X" "1" None;
                   corev1.EnvVar.mk "B" "3" None] in
  let env := [corev1.EnvVar.mk "B" "9" None] in
  let twice := [corev1.EnvVar.mk "D" "4" None; corev1.EnvVar.mk "D" "5" None] in
  updateEnv existing env [] = [corev1.EnvVar.mk "B" "9" None; corev1.EnvVar.mk "X" "1" None]
  /\ upsert env <$> existing
     = [corev1.EnvVar.mk "B" "9" None; corev1.EnvVar.mk "X" "1" None;
        corev1.EnvVar.mk "B" "9" None]
  /\ updateEnv existing env [] <> upsert env <$> existing
  /\ updateEnv [] twice [] = [corev1.EnvVar.mk "D" "4" None]
  /\ updateEnv [] twice [] <> twice.
Proof.
  intros existing env twice.
  split; [reflexivity|]. split; [reflexivity|]. split; [discriminate|].
  split; [reflexivity | discriminate].
Qed.

(** The name C is removed and upserted at once: it is not in the result. *)
Lemma updateEnv_removal_precedence_witness :
  "C" ∉ names (updateEnv [corev1.EnvVar.mk "A" "1" None; corev1.EnvVar.mk "C" "3" None]
                         [corev1.EnvVar.mk "C" "0" None; corev1.EnvVar.mk "D" "4" None]
                         ["C"]).
Proof.
  apply updateEnv_removal_precedence. apply list_elem_of_singleton. reflexivity.
Defined.

(** A Deployment handed to [UpdateResourceEnv] comes back as it was. *)
Lemma UpdateResourceEnv_frame_witness :
  UpdateResourceEnv "2021-06-01T12:00:00Z" (DeploymentObject dep_stale) = DeploymentObject dep_stale.
Proof.
  apply (proj1 (UpdateResourceEnv_frame "2021-06-01T12:00:00Z")). reflexivity.
Defined.

(** On the sample CloneSet the marker replaces the one of the first
    container and is appended to the second; the init container keeps its
    variables. *)
Example UpdateResourceEnv_cloneset :
  Object_containerEnvs (UpdateResourceEnv "now" (CloneSetObject cs_mid_transition))
  = [[corev1.EnvVar.mk "A" "1" None; corev1.EnvVar.mk "RESTARTED_AT" "now" None];
     [corev1.EnvVar.mk "RESTARTED_AT" "now" None]].
Proof. reflexivity. Qed.

(** * Further properties *)

(** ** Shape of the evaluators' results *)

Lemma append_assoc (s1 s2 s3 : string) : (s1 +:+ s2) +:+ s3 = s1 +:+ (s2 +:+ s3).
Proof.
  induction s1 as [|c s1 IH]; [done|].
  change (String c ((s1 +:+ s2) +:+ s3) = String c (s1 +:+ (s2 +:+ s3))).
  by rewrite IH.
Qed.

Section StatusViewerResults.

Variable fmt_q : string -> string.
Variable Revision : appsv1.Deployment.t -> string + Z.

Import appsv1.

Local Abbreviation Deployment_Status := (DeploymentStatusViewer_Status fmt_q Revision).
Local Abbreviation DaemonSet_Status := (DaemonSetStatusViewer_Status fmt_q).

Ltac reflect_tests :=
  repeat match goal with
  | H : (_ <? _) = true |- _ => apply Z.ltb_lt in H
  | H : (_ <? _) = false |- _ => apply Z.ltb_ge in H
  | H : (_ <=? _) = true |- _ => apply Z.leb_le in H
  | H : (_ <=? _) = false |- _ => apply Z.leb_gt in H
  | H : (_ =? _) = true |- _ => apply Z.eqb_eq in H
  | H : (_ =? _) = false |- _ => apply Z.eqb_neq in H
  | H : String.eqb _ _ = true |- _ => apply String.eqb_eq in H
  | H : String.eqb _ _ = false |- _ => apply String.eqb_neq in H
  | H : negb _ = true |- _ => apply negb_true_iff in H
  | H : negb _ = false |- _ => apply negb_false_iff in H
  | H : _ || _ = true |- _ => apply orb_true_iff in H
  | H : _ || _ = false |- _ => apply orb_false_iff in H; destruct H
  end.

Ltac branches := repeat case_match; simplify_eq/=; reflect_tests.

Ltac newline := unfold ends_in_newline; eexists; rewrite <- ?append_assoc; reflexivity.

(** Every result of the five evaluators is an error with an empty message,
    or a message that ends in a line feed without an error. *)
Theorem results_well_shaped :
  (forall obj revision, well_shaped (Deployment_Status obj revision))
  /\ (forall obj revision, well_shaped (DaemonSet_Status obj revision))
  /\ (forall obj revision, well_shaped (StatefulSetStatusViewer_Status obj revision))
  /\ (forall obj revision, well_shaped (CloneSetStatusViewer_Status obj revision))
  /\ (forall obj revision r,
      AdvancedStatefulSetStatusViewer_Status obj revision = Return r -> well_shaped r).
Proof.
  unfold well_shaped. split; [|split; [|split; [|split]]].
  - intros obj revision. unfold DeploymentStatusViewer_Status. cbv zeta.
    repeat case_match; simplify_eq/=; try done; newline.
  - intros obj revision. unfold DaemonSetStatusViewer_Status. cbv zeta.
    repeat case_match; simplify_eq/=; try done; newline.
  - intros obj revision. unfold StatefulSetStatusViewer_Status. cbv zeta.
    repeat case_match; simplify_eq/=; try done; newline.
  - intros obj revision. unfold CloneSetStatusViewer_Status. cbv zeta.
    repeat case_match; simplify_eq/=; try done; newline.
  - intros obj revision r. unfold AdvancedStatefulSetStatusViewer_Status. cbv zeta.
    repeat case_match; intros; simplify_eq/=; try done; newline.
Qed.

Lemma revision_check_rejected (d : Deployment.t) (revision : Z) :
  (if 0 <? revision
   then match Revision d with
        | inl cause => Some (RevisionUnreadable (Deployment.Name d) cause)
        | inr deploymentRev =>
          if negb (revision =? deploymentRev)
          then Some (RevisionMismatch revision deploymentRev) else None
        end
   else None) = None ->
  revision_accepted Revision d revision.
Proof.
  unfold revision_accepted. destruct (Z.ltb_spec 0 revision); [|intros _; left; lia].
  destruct (Revision d) as [cause | running]; [done|].
  destruct (Z.eqb_spec revision running) as [-> | Hne]; [by right | done].
Qed.

(** The revision a caller asks for is read by the Deployment evaluator
    only, and only when positive: there, a revision that cannot be read or
    differs from the recorded one is an error whatever the status says. *)
Theorem revision_read_by_deployment_only :
  (forall obj r1 r2, DaemonSet_Status obj r1 = DaemonSet_Status obj r2)
  /\ (forall obj r1 r2,
      StatefulSetStatusViewer_Status obj r1 = StatefulSetStatusViewer_Status obj r2)
  /\ (forall obj r1 r2,
      CloneSetStatusViewer_Status obj r1 = CloneSetStatusViewer_Status obj r2)
  /\ (forall obj r1 r2,
      AdvancedStatefulSetStatusViewer_Status obj r1
      = AdvancedStatefulSetStatusViewer_Status obj r2)
  /\ (forall obj r1 r2, r1 <= 0 -> r2 <= 0 ->
      Deployment_Status obj r1 = Deployment_Status obj r2)
  /\ (forall d revision running, 0 < revision ->
      Revision d = inr running -> running <> revision ->
      Deployment_Status (inr d) revision = ("", false, Some (RevisionMismatch revision running)))
  /\ (forall d revision cause, 0 < revision ->
      Revision d = inl cause ->
      Deployment_Status (inr d) revision
      = ("", false, Some (RevisionUnreadable (Deployment.Name d) cause))).
Proof.
  repeat split; try reflexivity.
  - intros [cause | d] r1 r2 H1 H2; [done|]. unfold DeploymentStatusViewer_Status.
    by rewrite (proj2 (Z.ltb_ge 0 r1) H1), (proj2 (Z.ltb_ge 0 r2) H2).
  - intros d revision running Hpos Hrev Hne. unfold DeploymentStatusViewer_Status.
    rewrite (proj2 (Z.ltb_lt 0 revision) Hpos), Hrev.
    by rewrite (proj2 (Z.eqb_neq revision running)).
  - intros d revision cause Hpos Hrev. unfold DeploymentStatusViewer_Status.
    by rewrite (proj2 (Z.ltb_lt 0 revision) Hpos), Hrev.
Qed.

(** The Deployment evaluator reports done exactly when the requested
    revision is accepted, the generation is observed, the progress deadline
    is not reported as exceeded, the updated replicas reach the replicas
    wanted (when the spec sets them), no old replica is left and every
    updated replica is available. *)
Theorem deployment_done_iff (d : Deployment.t) (revision : Z) :
  let status := Deployment.Status d in
  done (Deployment_Status (inr d) revision) = true <->
  revision_accepted Revision d revision
  /\ Deployment.Generation d <= DeploymentStatus.ObservedGeneration status
  /\ ~ progress_deadline_exceeded d
  /\ (forall replicas, DeploymentSpec.Replicas (Deployment.Spec d) = Some replicas ->
                       replicas <= DeploymentStatus.UpdatedReplicas status)
  /\ DeploymentStatus.Replicas status <= DeploymentStatus.UpdatedReplicas status
  /\ DeploymentStatus.UpdatedReplicas status <= DeploymentStatus.AvailableReplicas status.
Proof.
  intros status. subst status. unfold DeploymentStatusViewer_Status. cbv zeta. split.
  - destruct (if 0 <? revision then _ else _) as [e|] eqn:Hcheck; [done|].
    apply revision_check_rejected in Hcheck.
    destruct (_ <=? _) eqn:Hgen; [|done]. apply Z.leb_le in Hgen.
    destruct (match deploymentutil.GetDeploymentCondition _ _ with
              | Some _ => _ | None => _ end) eqn:Hdl; [done|].
    assert (~ progress_deadline_exceeded d) as Hnd.
    { intros Hex. apply deadline_test in Hex. congruence. }
    intros Hdone. branches; try done.
    all: repeat split; try done; try lia.
    all: intros replicas ?; simplify_eq; lia.
  - intros (Hrev & Hgen & Hnd & Hupd & Hold & Havail).
    rewrite revision_check_accepted by done.
    rewrite (proj2 (Z.leb_le _ _) Hgen), deadline_test_false by done.
    assert (match DeploymentSpec.Replicas (Deployment.Spec d) with
            | Some replicas =>
              if DeploymentStatus.UpdatedReplicas (Deployment.Status d) <? replicas
              then Some replicas else None
            | None => None
            end = None) as ->.
    { destruct (DeploymentSpec.Replicas _) as [replicas|]; [|done].
      by rewrite (proj2 (Z.ltb_ge _ _) (Hupd replicas eq_refl)). }
    by rewrite (proj2 (Z.ltb_ge _ _) Hold), (proj2 (Z.ltb_ge _ _) Havail).
Qed.

(** The DaemonSet evaluator reports done without error exactly when the
    strategy is RollingUpdate, the generation is observed, and the updated
    and the available pods both reach the desired number scheduled.  The
    updated pods are checked first: while they are short, their message is
    the answer whatever the available pods are. *)
Theorem daemonset_done_iff (ds : DaemonSet.t) (revision : Z) :
  let status := DaemonSet.Status ds in
  let r := DaemonSet_Status (inr ds) revision in
  (done r = true /\ err r = None <->
   DaemonSetUpdateStrategy.Type_ (DaemonSetSpec.UpdateStrategy (DaemonSet.Spec ds))
   = RollingUpdateDaemonSetStrategyType
   /\ DaemonSet.Generation ds <= DaemonSetStatus.ObservedGeneration status
   /\ DaemonSetStatus.DesiredNumberScheduled status <= DaemonSetStatus.UpdatedNumberScheduled status
   /\ DaemonSetStatus.DesiredNumberScheduled status <= DaemonSetStatus.NumberAvailable status)
  /\ (DaemonSetUpdateStrategy.Type_ (DaemonSetSpec.UpdateStrategy (DaemonSet.Spec ds))
      = RollingUpdateDaemonSetStrategyType ->
      DaemonSet.Generation ds <= DaemonSetStatus.ObservedGeneration status ->
      DaemonSetStatus.UpdatedNumberScheduled status < DaemonSetStatus.DesiredNumberScheduled status ->
      r = ("Waiting for daemon set " +:+ fmt_q (DaemonSet.Name ds) +:+ " rollout to finish: "
           +:+ fmt_d (DaemonSetStatus.UpdatedNumberScheduled status) +:+ " out of "
           +:+ fmt_d (DaemonSetStatus.DesiredNumberScheduled status)
           +:+ " new pods have been updated..." +:+ nl, false, None)).
Proof.
  intros status r. subst status r. unfold DaemonSetStatusViewer_Status. cbv zeta.
  split; [split|].
  - intros [Hdone Herr]. branches; try done.
    all: repeat split; (done || lia).
  - intros (Hty & Hgen & Hupd & Havail).
    rewrite Hty, String.eqb_refl. cbn [negb].
    by rewrite (proj2 (Z.leb_le _ _) Hgen), (proj2 (Z.ltb_ge _ _) Hupd),
      (proj2 (Z.ltb_ge _ _) Havail).
  - intros Hty Hgen Hupd. rewrite Hty, String.eqb_refl. cbn [negb].
    by rewrite (proj2 (Z.leb_le _ _) Hgen), (proj2 (Z.ltb_lt _ _) Hupd).
Qed.

(** The StatefulSet evaluator reports done without error exactly when the
    strategy is RollingUpdate, the generation is observed at least once and
    up to date, the ready replicas reach the replicas wanted, and either the
    rolling-update sub-policy is present and its partition target (if any)
    is reached, or it is absent and the two revisions agree. *)
Theorem statefulset_done_iff (sts : StatefulSet.t) (revision : Z) :
  let spec := StatefulSet.Spec sts in
  let status := StatefulSet.Status sts in
  let strategy := StatefulSetSpec.UpdateStrategy spec in
  let r := StatefulSetStatusViewer_Status (inr sts) revision in
  done r = true /\ err r = None <->
  StatefulSetUpdateStrategy.Type_ strategy = RollingUpdateStatefulSetStrategyType
  /\ StatefulSetStatus.ObservedGeneration status <> 0
  /\ StatefulSet.Generation sts <= StatefulSetStatus.ObservedGeneration status
  /\ (forall replicas, StatefulSetSpec.Replicas spec = Some replicas ->
                       replicas <= StatefulSetStatus.ReadyReplicas status)
  /\ match StatefulSetUpdateStrategy.RollingUpdate strategy with
     | Some rollingUpdate =>
       forall replicas partition,
         StatefulSetSpec.Replicas spec = Some replicas ->
         RollingUpdateStatefulSetStrategy.Partition rollingUpdate = Some partition ->
         Int32.sub replicas partition <= StatefulSetStatus.UpdatedReplicas status
     | None =>
       StatefulSetStatus.UpdateRevision status = StatefulSetStatus.CurrentRevision status
     end.
Proof.
  intros spec status strategy r. subst spec status strategy r.
  unfold StatefulSetStatusViewer_Status. cbv zeta. split.
  - intros [Hdone Herr]. branches; try done.
    all: repeat split; try done; try lia.
    all: try (intros replicas [= <-]; lia).
    all: try (intros replicas partition [= <-] [= <-]; lia).
    all: try (intros replicas partition ? ?; congruence).
  - intros (Hty & Hobs & Hgen & Hready & Hru).
    rewrite Hty, String.eqb_refl. cbn [negb].
    rewrite (proj2 (Z.eqb_neq _ _) Hobs), (proj2 (Z.ltb_ge _ _) Hgen). cbn [orb].
    assert (match StatefulSetSpec.Replicas (StatefulSet.Spec sts) with
            | Some replicas =>
              if StatefulSetStatus.ReadyReplicas (StatefulSet.Status sts) <? replicas
              then Some replicas else None
            | None => None
            end = None) as ->.
    { destruct (StatefulSetSpec.Replicas _) as [replicas|]; [|done].
      by rewrite (proj2 (Z.ltb_ge _ _) (Hready replicas eq_refl)). }
    destruct (StatefulSetUpdateStrategy.RollingUpdate _) as [ru|].
    + destruct (StatefulSetSpec.Replicas _) as [replicas|]; [|done].
      destruct (RollingUpdateStatefulSetStrategy.Partition ru) as [partition|]; [|done].
      by rewrite (proj2 (Z.ltb_ge _ _) (Hru replicas partition eq_refl eq_refl)).
    + by rewrite Hru, String.eqb_refl.
Qed.

(** The CloneSet evaluator reports done exactly when the partition target
    is reached (a check made only for the two in-place strategies, with
    replicas and partition both set), the generation is observed at least
    once and up to date, and the ready replicas reach the replicas wanted.
    Without a partition the updated replicas are not looked at. *)
Theorem cloneset_done_iff (cs : kruiseappsv1alpha1.CloneSet.t) (revision : Z) :
  let spec := kruiseappsv1alpha1.CloneSet.Spec cs in
  let status := kruiseappsv1alpha1.CloneSet.Status cs in
  let strategy := kruiseappsv1alpha1.CloneSetSpec.UpdateStrategy spec in
  done (CloneSetStatusViewer_Status (inr cs) revision) = true <->
  (kruiseappsv1alpha1.CloneSetUpdateStrategy.Type_ strategy
   = kruiseappsv1alpha1.InPlaceOnlyCloneSetUpdateStrategyType
   \/ kruiseappsv1alpha1.CloneSetUpdateStrategy.Type_ strategy
      = kruiseappsv1alpha1.InPlaceIfPossibleCloneSetUpdateStrategyType ->
   forall replicas partition,
     kruiseappsv1alpha1.CloneSetSpec.Replicas spec = Some replicas ->
     kruiseappsv1alpha1.CloneSetUpdateStrategy.Partition strategy = Some partition ->
     Int32.sub replicas (intstr.IntOrString.IntVal partition)
     <= kruiseappsv1alpha1.CloneSetStatus.UpdatedReplicas status)
  /\ kruiseappsv1alpha1.CloneSetStatus.ObservedGeneration status <> 0
  /\ kruiseappsv1alpha1.CloneSet.Generation cs
     <= kruiseappsv1alpha1.CloneSetStatus.ObservedGeneration status
  /\ (forall replicas, kruiseappsv1alpha1.CloneSetSpec.Replicas spec = Some replicas ->
                       replicas <= kruiseappsv1alpha1.CloneSetStatus.ReadyReplicas status).
Proof.
  intros spec status strategy. subst spec status strategy.
  unfold CloneSetStatusViewer_Status. cbv zeta. split.
  - intros Hdone. branches; try done.
    all: repeat split; try done; try lia.
    all: try (intros replicas ?; simplify_eq; lia).
    all: try (intros _ replicas partition ? ?; simplify_eq; lia).
    all: intros [Hty | Hty]; congruence.
  - intros (Hpart & Hobs & Hgen & Hready).
    assert ((if String.eqb (kruiseappsv1alpha1.CloneSetUpdateStrategy.Type_
                              (kruiseappsv1alpha1.CloneSetSpec.UpdateStrategy
                                 (kruiseappsv1alpha1.CloneSet.Spec cs)))
                           kruiseappsv1alpha1.InPlaceOnlyCloneSetUpdateStrategyType
                || String.eqb (kruiseappsv1alpha1.CloneSetUpdateStrategy.Type_
                                 (kruiseappsv1alpha1.CloneSetSpec.UpdateStrategy
                                    (kruiseappsv1alpha1.CloneSet.Spec cs)))
                              kruiseappsv1alpha1.InPlaceIfPossibleCloneSetUpdateStrategyType
             then
               match kruiseappsv1alpha1.CloneSetSpec.Replicas (kruiseappsv1alpha1.CloneSet.Spec cs),
                     kruiseappsv1alpha1.CloneSetUpdateStrategy.Partition
                       (kruiseappsv1alpha1.CloneSetSpec.UpdateStrategy
                          (kruiseappsv1alpha1.CloneSet.Spec cs)) with
               | Some replicas, Some partition =>
                 if kruiseappsv1alpha1.CloneSetStatus.UpdatedReplicas
                      (kruiseappsv1alpha1.CloneSet.Status cs)
                    <? Int32.sub replicas (intstr.IntOrString.IntVal partition)
                 then Some (Int32.sub replicas (intstr.IntOrString.IntVal partition))
                 else None
               | _, _ => None
               end
             else None) = None) as ->.
    { destruct (_ || _) eqn:Hty; [|done].
      apply orb_true_iff in Hty. rewrite !String.eqb_eq in Hty.
      destruct (kruiseappsv1alpha1.CloneSetSpec.Replicas _) as [replicas|]; [|done].
      destruct (kruiseappsv1alpha1.CloneSetUpdateStrategy.Partition _) as [partition|]; [|done].
      by rewrite (proj2 (Z.ltb_ge _ _) (Hpart Hty replicas partition eq_refl eq_refl)). }
    rewrite (proj2 (Z.eqb_neq _ _) Hobs), (proj2 (Z.ltb_ge _ _) Hgen). cbn [orb].
    destruct (kruiseappsv1alpha1.CloneSetSpec.Replicas _) as [replicas|]; [|done].
    by rewrite (proj2 (Z.ltb_ge _ _) (Hready replicas eq_refl)).
Qed.

(** The Advanced StatefulSet evaluator panics exactly on a converted
    object whose strategy is RollingUpdate and whose replicas are set while
    the rolling-update sub-policy is missing; a failed conversion never
    panics. *)
Theorem advanced_statefulset_panics_iff
  (obj : converted kruiseappsv1beta1.StatefulSet.t) (revision : Z) :
  AdvancedStatefulSetStatusViewer_Status obj revision = Panic <->
  exists asts, obj = inr asts
    /\ kruiseappsv1beta1.StatefulSetUpdateStrategy.Type_
         (kruiseappsv1beta1.StatefulSetSpec.UpdateStrategy (kruiseappsv1beta1.StatefulSet.Spec asts))
       = RollingUpdateStatefulSetStrategyType
    /\ kruiseappsv1beta1.StatefulSetSpec.Replicas (kruiseappsv1beta1.StatefulSet.Spec asts) <> None
    /\ kruiseappsv1beta1.StatefulSetUpdateStrategy.RollingUpdate
         (kruiseappsv1beta1.StatefulSetSpec.UpdateStrategy (kruiseappsv1beta1.StatefulSet.Spec asts))
       = None.
Proof.
  unfold AdvancedStatefulSetStatusViewer_Status. cbv zeta. split.
  - intros Hpanic. destruct obj as [cause | asts]; [done|]. exists asts.
    branches; try done.
    all: repeat split; congruence.
  - intros (asts & -> & Hty & Hreplicas & Hru).
    rewrite Hty, String.eqb_refl, Hru.
    by destruct (kruiseappsv1beta1.StatefulSetSpec.Replicas _).
Qed.

(** The readiness check and the partition check come in opposite orders:
    with the ready replicas and the updated replicas both short, the
    StatefulSet evaluator (generation observed) reports the pods that are
    not ready, while the CloneSet evaluator reports the partition shortfall,
    and does so even before the generation is observed. *)
Theorem readiness_and_partition_order :
  (forall (sts : StatefulSet.t) (revision replicas : Z),
      let spec := StatefulSet.Spec sts in
      let status := StatefulSet.Status sts in
      StatefulSetUpdateStrategy.Type_ (StatefulSetSpec.UpdateStrategy spec)
      = RollingUpdateStatefulSetStrategyType ->
      StatefulSetStatus.ObservedGeneration status <> 0 ->
      StatefulSet.Generation sts <= StatefulSetStatus.ObservedGeneration status ->
      StatefulSetSpec.Replicas spec = Some replicas ->
      StatefulSetStatus.ReadyReplicas status < replicas ->
      StatefulSetStatusViewer_Status (inr sts) revision
      = ("Waiting for " +:+ fmt_d (Int32.sub replicas (StatefulSetStatus.ReadyReplicas status))
         +:+ " pods to be ready..." +:+ nl, false, None))
  /\ (forall (cs : kruiseappsv1alpha1.CloneSet.t) (revision replicas : Z) partition,
      let spec := kruiseappsv1alpha1.CloneSet.Spec cs in
      let status := kruiseappsv1alpha1.CloneSet.Status cs in
      let strategy := kruiseappsv1alpha1.CloneSetSpec.UpdateStrategy spec in
      let target := Int32.sub replicas (intstr.IntOrString.IntVal partition) in
      kruiseappsv1alpha1.CloneSetUpdateStrategy.Type_ strategy
      = kruiseappsv1alpha1.InPlaceOnlyCloneSetUpdateStrategyType
      \/ kruiseappsv1alpha1.CloneSetUpdateStrategy.Type_ strategy
         = kruiseappsv1alpha1.InPlaceIfPossibleCloneSetUpdateStrategyType ->
      kruiseappsv1alpha1.CloneSetSpec.Replicas spec = Some replicas ->
      kruiseappsv1alpha1.CloneSetUpdateStrategy.Partition strategy = Some partition ->
      kruiseappsv1alpha1.CloneSetStatus.UpdatedReplicas status < target ->
      CloneSetStatusViewer_Status (inr cs) revision
      = ("Waiting for partitioned roll out to finish: "
         +:+ fmt_d (kruiseappsv1alpha1.CloneSetStatus.UpdatedReplicas status) +:+ " out of "
         +:+ fmt_d target +:+ " new pods have been updated..." +:+ nl, false, None)).
Proof.
  split.
  - intros sts revision replicas spec status Hty Hobs Hgen Hreplicas Hready.
    subst spec status. unfold StatefulSetStatusViewer_Status. cbv zeta.
    rewrite Hty, String.eqb_refl, Hreplicas. cbn [negb].
    by rewrite (proj2 (Z.eqb_neq _ _) Hobs), (proj2 (Z.ltb_ge _ _) Hgen),
      (proj2 (Z.ltb_lt _ _) Hready).
  - intros cs revision replicas partition spec status strategy target Hty Hreplicas Hpart Hupd.
    subst spec status strategy target. unfold CloneSetStatusViewer_Status. cbv zeta.
    rewrite Hreplicas, Hpart, (proj2 (Z.ltb_lt _ _) Hupd).
    by destruct Hty as [-> | ->].
Qed.

(** The Advanced StatefulSet evaluator returns done exactly when, under
    the RollingUpdate strategy with replicas set, the rolling-update
    sub-policy is present and its partition target (if any) is reached, the
    generation is observed at least once and up to date, and the ready
    replicas reach the replicas wanted.  The two revisions play no part. *)
Theorem advanced_statefulset_done_iff (asts : kruiseappsv1beta1.StatefulSet.t) (revision : Z) :
  let spec := kruiseappsv1beta1.StatefulSet.Spec asts in
  let status := kruiseappsv1beta1.StatefulSet.Status asts in
  let strategy := kruiseappsv1beta1.StatefulSetSpec.UpdateStrategy spec in
  (exists r, AdvancedStatefulSetStatusViewer_Status (inr asts) revision = Return r
             /\ done r = true) <->
  (kruiseappsv1beta1.StatefulSetUpdateStrategy.Type_ strategy
   = RollingUpdateStatefulSetStrategyType ->
   forall replicas,
     kruiseappsv1beta1.StatefulSetSpec.Replicas spec = Some replicas ->
     exists rollingUpdate,
       kruiseappsv1beta1.StatefulSetUpdateStrategy.RollingUpdate strategy = Some rollingUpdate
       /\ forall partition,
           kruiseappsv1beta1.RollingUpdateStatefulSetStrategy.Partition rollingUpdate
           = Some partition ->
           Int32.sub replicas partition
           <= kruiseappsv1beta1.StatefulSetStatus.UpdatedReplicas status)
  /\ kruiseappsv1beta1.StatefulSetStatus.ObservedGeneration status <> 0
  /\ kruiseappsv1beta1.StatefulSet.Generation asts
     <= kruiseappsv1beta1.StatefulSetStatus.ObservedGeneration status
  /\ (forall replicas, kruiseappsv1beta1.StatefulSetSpec.Replicas spec = Some replicas ->
                       replicas <= kruiseappsv1beta1.StatefulSetStatus.ReadyReplicas status).
Proof.
  intros spec status strategy. subst spec status strategy.
  unfold AdvancedStatefulSetStatusViewer_Status. cbv zeta. split.
  - intros (r & Hret & Hdone). branches; try done.
    all: repeat split; try done; try lia.
    all: try (intros replicas ?; simplify_eq; lia).
    all: try (intros Hty replicas ?; simplify_eq; eexists; split; [done|];
              intros partition ?; simplify_eq; lia).
    all: try (intros Hty replicas ?; simplify_eq).
  - intros (Hpart & Hobs & Hgen & Hready).
    rewrite (proj2 (Z.eqb_neq _ _) Hobs), (proj2 (Z.ltb_ge _ _) Hgen). cbn [orb].
    destruct (kruiseappsv1beta1.StatefulSetSpec.Replicas _) as [replicas|] eqn:Hreplicas.
    + rewrite (proj2 (Z.ltb_ge _ _) (Hready replicas eq_refl)).
      destruct (String.eqb_spec
                  (kruiseappsv1beta1.StatefulSetUpdateStrategy.Type_
                     (kruiseappsv1beta1.StatefulSetSpec.UpdateStrategy
                        (kruiseappsv1beta1.StatefulSet.Spec asts)))
                  RollingUpdateStatefulSetStrategyType) as [Hty | Hty]; [|by eexists].
      destruct (Hpart Hty replicas eq_refl) as (ru & -> & Htarget).
      destruct (kruiseappsv1beta1.RollingUpdateStatefulSetStrategy.Partition ru)
        as [partition|]; [|by eexists].
      rewrite (proj2 (Z.ltb_ge _ _) (Htarget partition eq_refl)). by eexists.
    + destruct (String.eqb _ _); by eexists.
Qed.

End StatusViewerResults.

(** ** The viewer of a kind *)

Lemma GroupKind_eqb_eq (a b : schema.GroupKind.t) : schema.GroupKind_eqb a b = true <-> a = b.
Proof.
  unfold schema.GroupKind_eqb. rewrite andb_true_iff, !String.eqb_eq.
  destruct a, b; cbn. split; [by intros [-> ->] | by intros [= -> ->]].
Qed.

(** [StatusViewerFor] knows seven (group, kind) pairs and no other: it
    returns the Deployment and DaemonSet viewers for the groups extensions
    and apps, the StatefulSet viewer for the group apps, and the CloneSet
    and Advanced StatefulSet viewers for the group apps.kruise.io.  Any other
    pair, a StatefulSet of the group extensions for one, is an error. *)
Theorem StatusViewerFor_allow_list (kind : schema.GroupKind.t) (viewer : StatusViewer) :
  let group := schema.GroupKind.Group kind in
  let name := schema.GroupKind.Kind kind in
  StatusViewerFor kind = inr viewer <->
  match viewer with
  | DeploymentStatusViewer => name = "Deployment" /\ (group = "extensions" \/ group = "apps")
  | DaemonSetStatusViewer => name = "DaemonSet" /\ (group = "extensions" \/ group = "apps")
  | StatefulSetStatusViewer => name = "StatefulSet" /\ group = "apps"
  | CloneSetStatusViewer => name = "CloneSet" /\ group = "apps.kruise.io"
  | AdvancedStatefulSetStatusViewer => name = "StatefulSet" /\ group = "apps.kruise.io"
  end.
Proof.
  destruct kind as [group name]. cbn [schema.GroupKind.Group schema.GroupKind.Kind].
  unfold StatusViewerFor. split.
  - intros Hfor.
    repeat match type of Hfor with
    | context [schema.GroupKind_eqb ?a ?b] =>
      let Heq := fresh "Heq" in
      destruct (schema.GroupKind_eqb a b) eqn:Heq;
      [apply GroupKind_eqb_eq in Heq; injection Heq as -> ->;
       cbn [orb] in Hfor; injection Hfor as <-; by auto | cbn [orb] in Hfor]
    end.
    discriminate Hfor.
  - destruct viewer; intros [-> Hgroup];
      repeat (destruct Hgroup as [Hgroup | Hgroup]); subst; reflexivity.
Qed.

(** ** The pod selector of an object *)

Section SelectorFacts.

Variable LabelSelector : Type.
Variable Selector : Type.
Variable LabelSelectorAsSelector : option LabelSelector -> string + Selector.
Variable SelectorFromSet : gmap string string -> Selector.

Local Abbreviation Selectors := (SelectorsForObject LabelSelectorAsSelector SelectorFromSet).

(** [SelectorsForObject] returns either a selector together with the
    namespace of the object and no error, or an error together with an empty
    namespace and no selector. *)
Theorem SelectorsForObject_all_or_nothing (object : SelectorObject LabelSelector) :
  (exists selector,
      Selectors object = (SelectorObject_Namespace object, Some selector, None))
  \/ (exists e, Selectors object = ("", None, Some e)).
Proof.
  destruct object; cbn; unfold selectorOfLabelSelector;
    repeat case_match; eauto.
Qed.

(** Which objects have no selector: a workload or Job whose label selector
    the library refuses, a Service whose selector is empty, and an object of
    any other type.  A ReplicationController always has one, even when its
    selector is empty. *)
Theorem SelectorsForObject_fails_iff (object : SelectorObject LabelSelector) :
  (Selectors object).2 <> None <->
  match object with
  | CoreV1ReplicationController _ _ => False
  | CoreV1Service _ _ selector => selector = ∅
  | OtherType _ _ => True
  | ExtensionsV1beta1ReplicaSet _ selector | AppsV1ReplicaSet _ selector
  | AppsV1beta2ReplicaSet _ selector
  | AppsV1StatefulSet _ selector | AppsV1beta1StatefulSet _ selector
  | AppsV1beta2StatefulSet _ selector
  | ExtensionsV1beta1DaemonSet _ selector | AppsV1DaemonSet _ selector
  | AppsV1beta2DaemonSet _ selector
  | ExtensionsV1beta1Deployment _ selector | AppsV1Deployment _ selector
  | AppsV1beta1Deployment _ selector | AppsV1beta2Deployment _ selector
  | BatchV1Job _ selector => exists cause, LabelSelectorAsSelector selector = inl cause
  end.
Proof.
  assert (forall namespace selector,
             (selectorOfLabelSelector LabelSelector Selector LabelSelectorAsSelector
                namespace selector).2 <> None
             <-> exists cause, LabelSelectorAsSelector selector = inl cause) as Hlabel.
  { intros namespace selector. unfold selectorOfLabelSelector.
    destruct (LabelSelectorAsSelector selector) as [cause | sel]; cbn.
    - split; [eauto | done].
    - split; [done | by intros [cause ?]]. }
  destruct object; cbn [SelectorsForObject]; try apply Hlabel.
  - cbn. split; [done | intros []].
  - destruct (Nat.eqb_spec (size Selector_) 0) as [Hsize | Hsize]; cbn.
    + by apply map_size_empty_iff in Hsize.
    + split; [done|]. intros ->. by rewrite map_size_empty in Hsize.
  - cbn. done.
Qed.

End SelectorFacts.

(** ** More on environment variables *)

Section UpdateEnvFacts.

Import corev1.

Implicit Types (existing env : list EnvVar.t) (covered : gset string) (e : EnvVar.t).

Ltac existing_step env covered e :=
  destruct (decide (corev1.EnvVar.Name e ∈ covered)) as [Hcov | Hcov];
  [ rewrite (existingLoop_covered env covered e) by done
  | let newer := fresh "newer" in
    let Hfind := fresh "Hfind" in
    destruct (findEnv env (corev1.EnvVar.Name e)) as [newer [|]] eqn:Hfind;
    [ rewrite (existingLoop_replaced env covered e _ newer) by done
    | rewrite (existingLoop_kept env covered e _ newer) by done ] ].

Ltac env_step covered e :=
  destruct (decide (corev1.EnvVar.Name e ∈ covered)) as [Hcov | Hcov];
  [ rewrite (envLoop_covered covered e) by done
  | rewrite (envLoop_appended covered e) by done ].

(** [findEnv] finds the first variable of the name and no other; it
    misses exactly when no variable has the name, and then returns the zero
    variable. *)
Theorem findEnv_first_match env (name : string) e :
  (findEnv env name = (e, true) <->
   exists pre post, env = (pre ++ e :: post) /\ EnvVar.Name e = name /\ (name ∉ names pre))
  /\ (findEnv env name = (e, false) <-> (name ∉ names env) /\ e = EnvVar_zero).
Proof.
  split; split.
  - induction env as [|e' env IH]; cbn [findEnv]; [done|].
    destruct (String.eqb_spec (EnvVar.Name e') name) as [Heq | Hne].
    + intros [= ->]. exists [], env. split; [done|]. split; [done | apply not_elem_of_nil].
    + intros (pre & post & -> & Hname & Hpre)%IH. exists (e' :: pre), post.
      split; [done|]. split; [done|]. unfold names. rewrite fmap_cons.
      apply not_elem_of_cons. by split.
  - intros (pre & post & -> & <- & Hpre). by apply findEnv_first.
  - intros Hfind. split; [by apply findEnv_missing in Hfind|].
    induction env as [|e' env IH]; cbn [findEnv] in Hfind; [by simplify_eq|].
    destruct (String.eqb _ _); [done | by apply IH].
  - intros [Hmissing ->]. induction env as [|e' env IH]; [done|].
    unfold names in Hmissing. rewrite fmap_cons in Hmissing.
    apply not_elem_of_cons in Hmissing as [Hne Hmissing]. cbn [findEnv].
    destruct (String.eqb_spec (EnvVar.Name e') name); [congruence | by apply IH].
Qed.

Lemma existingLoop_no_upserts covered existing :
  existingLoop [] covered existing
  = (covered, filter (fun e => EnvVar.Name e ∉ covered) existing).
Proof.
  induction existing as [|e existing IH]; [done|].
  existing_step (@nil EnvVar.t) covered e.
  - rewrite IH. by rewrite filter_cons_False by (intros Hn; by apply Hn).
  - done.
  - rewrite IH. cbn [fst snd]. by rewrite filter_cons_True.
Qed.

(** With nothing to upsert, [updateEnv] only removes: the variables whose
    name is not in the removal list stay as they are, in order, repeated
    names included. *)
Theorem updateEnv_no_upserts existing (remove : list string) :
  updateEnv existing [] remove = filter (fun e => EnvVar.Name e ∉ remove) existing.
Proof.
  rewrite updateEnv_loops, existingLoop_no_upserts. cbn. rewrite app_nil_r.
  apply list_filter_iff. intros e. by rewrite elem_of_list_to_set.
Qed.

Lemma findEnv_elem env (name : string) e : findEnv env name = (e, true) -> name ∈ names env.
Proof.
  intros (pre & post & -> & <- & _)%findEnv_first_match.
  unfold names. rewrite fmap_app, fmap_cons. apply elem_of_app. right. by left.
Qed.

Lemma findEnv_existingLoop env covered existing (name : string) :
  name ∈ names env -> name ∉ covered -> name ∈ names existing ->
  findEnv (existingLoop env covered existing).2 name = findEnv env name.
Proof.
  intros Henv. revert covered.
  induction existing as [|e existing IH]; intros covered Hfresh Hin.
  - by apply elem_of_nil in Hin.
  - unfold names in Hin. rewrite fmap_cons in Hin. fold (names existing) in Hin.
    existing_step env covered e; cbn [fst snd].
    + apply IH; [done|]. apply elem_of_cons in Hin as [-> | Hin]; done.
    + pose proof (findEnv_name _ _ _ Hfind) as Hname. cbn [findEnv]. rewrite Hname.
      destruct (String.eqb_spec (EnvVar.Name e) name) as [<- | Hne]; [done|].
      apply IH.
      * rewrite not_elem_of_union, not_elem_of_singleton. by split.
      * apply elem_of_cons in Hin as [-> | Hin]; done.
    + cbn [findEnv].
      destruct (String.eqb_spec (EnvVar.Name e) name) as [<- | Hne].
      * by apply findEnv_missing in Hfind.
      * apply IH; [done|]. apply elem_of_cons in Hin as [-> | Hin]; done.
Qed.

Lemma findEnv_envLoop (pre : list EnvVar.t) env covered (name : string) :
  (forall n, n ∈ names pre -> n ∈ covered) -> name ∉ covered -> name ∈ names env ->
  findEnv (envLoop covered env).2 name = findEnv (pre ++ env) name.
Proof.
  revert pre covered. induction env as [|e env IH]; intros pre covered Hpre Hfresh Hin.
  - by apply elem_of_nil in Hin.
  - unfold names in Hin. rewrite fmap_cons in Hin. fold (names env) in Hin.
    assert (forall covered', covered ⊆ covered' -> EnvVar.Name e ∈ covered' ->
              forall n, n ∈ names (pre ++ [e]) -> n ∈ covered') as Hpre'.
    { intros covered' Hsub He n. unfold names. rewrite fmap_app. cbn.
      intros [Hn | ->%list_elem_of_singleton]%elem_of_app; [|done]. by apply Hsub, Hpre. }
    replace (pre ++ e :: env) with ((pre ++ [e]) ++ env) by (by rewrite <- app_assoc).
    env_step covered e; cbn [fst snd].
    + apply IH; [by apply Hpre' | done |].
      apply elem_of_cons in Hin as [-> | Hin]; done.
    + cbn [findEnv].
      destruct (String.eqb_spec (EnvVar.Name e) name) as [<- | Hne].
      * rewrite <- app_assoc. cbn [app]. symmetry. apply findEnv_first.
        intros Hn. by apply Hfresh, Hpre.
      * apply IH.
        -- apply Hpre'; [apply union_subseteq_r | apply elem_of_union_l, elem_of_singleton; done].
        -- rewrite not_elem_of_union, not_elem_of_singleton. by split.
        -- apply elem_of_cons in Hin as [-> | Hin]; done.
Qed.

(** After [updateEnv], looking up a name that is upserted and not removed
    gives the first upsert of that name, whatever the existing variables
    were. *)
Theorem updateEnv_upsert_wins existing env (remove : list string) (name : string) :
  name ∈ names env -> name ∉ remove ->
  findEnv (updateEnv existing env remove) name = findEnv env name.
Proof.
  intros Henv Hremove. rewrite updateEnv_loops, findEnv_app.
  assert (name ∉ (list_to_set remove : gset string)) as Hfresh
      by (by rewrite elem_of_list_to_set).
  destruct (decide (name ∈ names existing)) as [Hin | Hnotin].
  - pose proof (findEnv_existingLoop env _ existing name Henv Hfresh Hin) as Hfirst.
    destruct (findEnv_found env name Henv) as [e He].
    rewrite bool_decide_true; [done|].
    apply (findEnv_elem _ _ e). by rewrite Hfirst.
  - rewrite bool_decide_false
      by (intros Hout; apply Hnotin; by apply existingLoop_names in Hout).
    apply (findEnv_envLoop [] env); [by intros n ?%elem_of_nil | | done].
    rewrite existingLoop_covered_iff by done. tauto.
Qed.

Lemma existingLoop_others env covered existing :
  filter (fun e => EnvVar.Name e ∉ names env) (existingLoop env covered existing).2
  = filter (fun e => (EnvVar.Name e ∉ names env) /\ (EnvVar.Name e ∉ covered)) existing.
Proof.
  revert covered. induction existing as [|e existing IH]; intros covered; [done|].
  existing_step env covered e; cbn [fst snd].
  - rewrite IH. by rewrite (filter_cons_False _ e) by (intros [_ Hn]; by apply Hn).
  - assert (EnvVar.Name e ∈ names env) as Hin by (by apply findEnv_elem in Hfind).
    rewrite !filter_cons_False;
      [| by intros [Hn _] | rewrite (findEnv_name _ _ _ Hfind); by intros Hn].
    rewrite IH. apply list_filter_iff. intros x.
    rewrite not_elem_of_union, not_elem_of_singleton. split; [tauto|].
    intros [Hx Hc]. repeat split; [done | congruence | done].
  - assert (EnvVar.Name e ∉ names env) as Hnotin by (by apply findEnv_missing in Hfind).
    rewrite !filter_cons_True by done. by rewrite IH.
Qed.

Lemma envLoop_sublist covered env e : e ∈ (envLoop covered env).2 -> e ∈ env.
Proof.
  revert covered. induction env as [|e' env IH]; intros covered.
  - by intros ?%elem_of_nil.
  - env_step covered e'; cbn [fst snd].
    + intros Hin. right. by apply (IH covered).
    + intros [-> | Hin]%elem_of_cons; [by left | right; by apply (IH _ Hin)].
Qed.

(** [updateEnv] keeps the variables that are neither upserted nor removed
    as they are and in their order. *)
Theorem updateEnv_others_kept existing env (remove : list string) :
  filter (fun e => EnvVar.Name e ∉ names env) (updateEnv existing env remove)
  = filter (fun e => (EnvVar.Name e ∉ names env) /\ (EnvVar.Name e ∉ remove)) existing.
Proof.
  rewrite updateEnv_loops, filter_app, existingLoop_others.
  assert (filter (fun e => EnvVar.Name e ∉ names env)
            (envLoop (existingLoop env (list_to_set remove) existing).1 env).2 = []) as ->.
  { generalize (existingLoop env (list_to_set remove) existing).1. intros covered.
    pose proof (envLoop_sublist covered env) as Hsub.
    induction (envLoop covered env).2 as [|e out IH]; [done|].
    rewrite filter_cons_False.
    - apply IH. intros x Hx. apply Hsub. by right.
    - intros Hn. apply Hn, list_elem_of_fmap_2, Hsub. by left. }
  rewrite app_nil_r. apply list_filter_iff. intros e. by rewrite elem_of_list_to_set.
Qed.

Lemma names_cons e (l : list EnvVar.t) : names (e :: l) = EnvVar.Name e :: names l.
Proof. done. Qed.

Lemma names_app (l1 l2 : list EnvVar.t) : names (l1 ++ l2) = names l1 ++ names l2.
Proof. apply fmap_app. Qed.

Lemma existingLoop_upserted_once env covered existing :
  NoDup (filter (fun n => n ∈ names env) (names (existingLoop env covered existing).2))
  /\ forall n,
      n ∈ filter (fun n => n ∈ names env) (names (existingLoop env covered existing).2) ->
      (n ∉ covered) /\ (n ∈ (existingLoop env covered existing).1).
Proof.
  revert covered. induction existing as [|e existing IH]; intros covered.
  - cbn. split; [constructor | by intros n ?%elem_of_nil].
  - existing_step env covered e; cbn [fst snd].
    + apply IH.
    + destruct (IH ({[EnvVar.Name e]} ∪ covered)) as [Hnodup Hall].
      pose proof (findEnv_name _ _ _ Hfind) as Hname.
      assert (EnvVar.Name e ∈ names env) as Hin by (by apply findEnv_elem in Hfind).
      rewrite names_cons, Hname, !filter_cons_True by done.
      split.
      * apply NoDup_cons. split; [|done]. intros Hn. apply Hall in Hn as [Hn _].
        apply Hn, elem_of_union_l. by apply elem_of_singleton.
      * intros n [-> | Hn]%elem_of_cons.
        -- split; [done|]. apply existingLoop_covers, elem_of_union_l.
           by apply elem_of_singleton.
        -- apply Hall in Hn as [Hn Hc]. split; [|done].
           intros Hcovered. by apply Hn, elem_of_union_r.
    + destruct (IH covered) as [Hnodup Hall].
      assert (EnvVar.Name e ∉ names env) as Hnotin by (by apply findEnv_missing in Hfind).
      rewrite names_cons, !filter_cons_False by done. by split.
Qed.

Lemma envLoop_appended_once covered env :
  NoDup (names (envLoop covered env).2)
  /\ forall n, n ∈ names (envLoop covered env).2 -> n ∉ covered.
Proof.
  revert covered. induction env as [|e env IH]; intros covered.
  - cbn. split; [constructor | by intros n ?%elem_of_nil].
  - env_step covered e; cbn [fst snd]; [apply IH|].
    destruct (IH ({[EnvVar.Name e]} ∪ covered)) as [Hnodup Hall].
    rewrite names_cons. split.
    + apply NoDup_cons. split; [|done]. intros Hn. apply Hall in Hn.
      apply Hn, elem_of_union_l. by apply elem_of_singleton.
    + intros n [-> | Hn]%elem_of_cons; [done|]. apply Hall in Hn.
      intros Hcovered. by apply Hn, elem_of_union_r.
Qed.

(** In the result of [updateEnv] no upserted name occurs twice, even when
    the existing variables or the upserts repeat it. *)
Theorem updateEnv_upserted_once existing env (remove : list string) :
  NoDup (filter (fun n => n ∈ names env) (names (updateEnv existing env remove))).
Proof.
  rewrite updateEnv_loops, names_app, filter_app.
  destruct (existingLoop_upserted_once env (list_to_set remove) existing) as [Hfirst Hall].
  destruct (envLoop_appended_once (existingLoop env (list_to_set remove) existing).1 env)
    as [Hsecond Hfresh].
  apply NoDup_app. split; [done|]. split; [|by apply NoDup_filter].
  intros n Hn [_ Hout]%list_elem_of_filter.
  apply Hall in Hn as [_ Hcovered]. by apply Hfresh in Hout.
Qed.

(** *** Restarting twice *)

Lemma existingLoop_remark (m1 m2 : EnvVar.t) covered existing :
  EnvVar.Name m1 = EnvVar.Name m2 ->
  existingLoop [m2] covered (existingLoop [m1] covered existing).2
  = existingLoop [m2] covered existing
  /\ (existingLoop [m1] covered existing).1 = (existingLoop [m2] covered existing).1.
Proof.
  intros Hname. revert covered.
  induction existing as [|e existing IH]; intros covered; [done|].
  destruct (decide (EnvVar.Name e ∈ covered)) as [Hcov | Hcov].
  - rewrite !(existingLoop_covered _ covered e) by done. apply IH.
  - destruct (String.eqb_spec (EnvVar.Name m1) (EnvVar.Name e)) as [Heq | Hne].
    + assert (findEnv [m1] (EnvVar.Name e) = (m1, true)) as H1
          by (cbn [findEnv]; by rewrite (proj2 (String.eqb_eq _ _) Heq)).
      assert (findEnv [m2] (EnvVar.Name e) = (m2, true)) as H2
          by (cbn [findEnv]; rewrite <- Hname; by rewrite (proj2 (String.eqb_eq _ _) Heq)).
      rewrite (existingLoop_replaced [m1] covered e _ m1),
        (existingLoop_replaced [m2] covered e _ m2) by done.
      cbn [fst snd]. destruct (IH ({[EnvVar.Name e]} ∪ covered)) as [IH1 IH2].
      split; [|done].
      rewrite (existingLoop_replaced [m2] covered m1 _ m2)
        by (rewrite Heq; done).
      by rewrite Heq, IH1.
    + assert (findEnv [m1] (EnvVar.Name e) = (EnvVar_zero, false)) as H1
          by (cbn [findEnv]; by rewrite (proj2 (String.eqb_neq _ _) Hne)).
      assert (findEnv [m2] (EnvVar.Name e) = (EnvVar_zero, false)) as H2
          by (cbn [findEnv]; rewrite <- Hname; by rewrite (proj2 (String.eqb_neq _ _) Hne)).
      rewrite (existingLoop_kept [m1] covered e _ EnvVar_zero),
        (existingLoop_kept [m2] covered e _ EnvVar_zero) by done.
      cbn [fst snd]. destruct (IH covered) as [IH1 IH2]. split; [|done].
      rewrite (existingLoop_kept [m2] covered e _ EnvVar_zero) by done.
      by rewrite IH1.
Qed.

Lemma envLoop_nil covered : envLoop covered [] = (covered, []).
Proof. reflexivity. Qed.

Lemma updateEnv_remark (m1 m2 : EnvVar.t) existing :
  EnvVar.Name m1 = EnvVar.Name m2 ->
  updateEnv (updateEnv existing [m1] []) [m2] [] = updateEnv existing [m2] [].
Proof.
  intros Hname. rewrite (updateEnv_loops (updateEnv existing [m1] [])).
  rewrite !(updateEnv_loops existing). cbn [list_to_set foldr].
  rewrite existingLoop_app. cbn [fst snd].
  destruct (existingLoop_remark m1 m2 ∅ existing Hname) as [Hout Hcovered].
  rewrite Hout, Hcovered.
  set (c := (existingLoop [m2] ∅ existing).1). set (o := (existingLoop [m2] ∅ existing).2).
  destruct (decide (EnvVar.Name m1 ∈ c)) as [Hin | Hnotin].
  - rewrite (envLoop_covered c m1 []), envLoop_nil by done. cbn [fst snd].
    rewrite existingLoop_nil. cbn [fst snd]. by rewrite app_nil_r.
  - rewrite (envLoop_appended c m1 []), envLoop_nil by done. cbn [fst snd].
    assert (findEnv [m2] (EnvVar.Name m1) = (m2, true)) as Hfind
        by (cbn [findEnv]; rewrite Hname; by rewrite String.eqb_refl).
    rewrite (existingLoop_replaced [m2] c m1 [] m2) by done.
    rewrite existingLoop_nil. cbn [fst snd].
    rewrite (envLoop_covered _ m2 [])
      by (rewrite <- Hname; apply elem_of_union_l; by apply elem_of_singleton).
    rewrite (envLoop_appended c m2 []), !envLoop_nil by (by rewrite <- Hname).
    cbn [fst snd]. by rewrite app_nil_r.
Qed.

(** A later [UpdateResourceEnv] overrides an earlier one: the object is as
    if the later call alone had been made.  In particular the call is
    idempotent for one time of call. *)
Theorem UpdateResourceEnv_latest_wins (earlier later : string) (object : Object) :
  UpdateResourceEnv later (UpdateResourceEnv earlier object) = UpdateResourceEnv later object.
Proof.
  assert (forall t : PodTemplateSpec.t,
             restartContainers ([] ++ [EnvVar.mk RestartedEnv later None])
               (restartContainers ([] ++ [EnvVar.mk RestartedEnv earlier None]) t)
             = restartContainers ([] ++ [EnvVar.mk RestartedEnv later None]) t) as Htemplate.
  { intros [tmeta [inits containers policy node]].
    unfold restartContainers, PodTemplateSpec_setContainers. cbn. do 2 f_equal.
    rewrite List.map_map. apply List.map_ext. intros c.
    unfold Container_setEnv. cbn. f_equal. by apply updateEnv_remark. }
  destruct object as [[meta [replicas template strategy] status]
                     |[meta [replicas template strategy] status] | | | |];
    try reflexivity; cbn.
  - unfold CloneSet_setTemplate. cbn. by rewrite Htemplate.
  - unfold AdvancedStatefulSet_setTemplate. cbn. by rewrite Htemplate.
Qed.

End UpdateEnvFacts.

(** ** More on the first pod of a selector *)

(** The three ways [GetFirstPod] fails before or without a timeout: an
    error of the list is returned after that one call; an error on opening
    the watch is returned with no wait and nothing to stop; an Added or
    Modified event that carries something other than a pod ends the wait
    with the error "is not a pod event".  Each comes with no pod and count
    0. *)
Theorem GetFirstPod_failures
  (algorithm : sort.Algorithm corev1.Pod.t)
  (client : PodsGetter.t) (namespace selector : string) (timeout : Z)
  (sortBy : list corev1.Pod.t -> corev1.Pod.t -> corev1.Pod.t -> bool) :
  let options := metav1.ListOptions.mk selector "" in
  (forall e, PodsGetter.List client namespace options = inl e ->
     GetFirstPod algorithm client namespace selector timeout sortBy
     = ([CallList namespace options], (None, 0, Some e)))
  /\ (forall podList,
      let watchOptions :=
        metav1.ListOptions.mk selector (corev1.PodList.ResourceVersion podList) in
      PodsGetter.List client namespace options = inr podList ->
      corev1.PodList.Items podList = [] ->
      (forall e, PodsGetter.Watch client namespace watchOptions = inl e ->
         GetFirstPod algorithm client namespace selector timeout sortBy
         = ([CallList namespace options; CallWatch namespace watchOptions], (None, 0, Some e)))
      /\ (forall w events ending skipped event rest kind,
          PodsGetter.Watch client namespace watchOptions = inr w ->
          watch.Interface.ResultChan w timeout = (events, ending) ->
          events = skipped ++ event :: rest ->
          Forall (fun ev => qualifies ev = false) skipped ->
          qualifies event = true ->
          watch.Event.Object event = watch.NotPod kind ->
          GetFirstPod algorithm client namespace selector timeout sortBy
          = ([CallList namespace options; CallWatch namespace watchOptions;
              CallUntil timeout; CallStop], (None, 0, Some NotAPodEvent)))).
Proof.
  intros options. subst options. unfold GetFirstPod. cbv zeta. split.
  - by intros e ->.
  - intros podList Hlist Hempty.
    rewrite Hlist, append_all, Hempty. cbn [app length Z.of_nat Z.ltb Z.compare].
    cbn [metav1.ListOptions.LabelSelector]. split.
    + by intros e ->.
    + intros w events ending skipped event rest kind Hwatch Hchan -> Hskipped Hevent Hobject.
      rewrite Hwatch. unfold watchtools.UntilWithoutRetry. rewrite Hchan.
      rewrite until_first by done.
      destruct event as [type object]. cbn in Hobject. by rewrite Hobject.
Qed.

(** Whatever the collaborators answer, [GetFirstPod] returns a pod exactly
    when it returns no error; an error comes with count 0 and a pod with a
    count of at least 1; the list is the first call; and a watch that was
    opened is stopped by the last call. *)
Theorem GetFirstPod_result_shape
  (algorithm : sort.Algorithm corev1.Pod.t)
  (client : PodsGetter.t) (namespace selector : string) (timeout : Z)
  (sortBy : list corev1.Pod.t -> corev1.Pod.t -> corev1.Pod.t -> bool) :
  let calls := (GetFirstPod algorithm client namespace selector timeout sortBy).1 in
  let pod := (GetFirstPod algorithm client namespace selector timeout sortBy).2.1.1 in
  let count := (GetFirstPod algorithm client namespace selector timeout sortBy).2.1.2 in
  let e := (GetFirstPod algorithm client namespace selector timeout sortBy).2.2 in
  (e = None <-> pod <> None)
  /\ (e <> None -> count = 0)
  /\ (pod <> None -> 1 <= count)
  /\ head calls = Some (CallList namespace (metav1.ListOptions.mk selector ""))
  /\ (forall options w,
      CallWatch namespace options ∈ calls ->
      PodsGetter.Watch client namespace options = inr w ->
      last calls = Some CallStop).
Proof.
  unfold GetFirstPod. cbv zeta.
  destruct (PodsGetter.List client namespace _) as [e | podList] eqn:Hlist; cbn.
  { repeat split; try done. intros options w Hin. by apply list_elem_of_singleton in Hin. }
  rewrite append_all. cbn [app].
  destruct (corev1.PodList.Items podList) as [|item items] eqn:Hitems.
  - cbn [length Z.of_nat Z.ltb Z.compare].
    destruct (PodsGetter.Watch client namespace _) as [e | w] eqn:Hwatch; cbn.
    + repeat split; try done. intros options w Hin Hw.
      apply elem_of_cons in Hin as [? | Hin]; [done|].
      apply list_elem_of_singleton in Hin. simplify_eq. congruence.
    + destruct (watchtools.UntilWithoutRetry timeout w GetFirstPod_condition)
        as [event [e|]]; cbn; [by repeat split|].
      destruct event as [[type [pod | kind]]|]; cbn; by repeat split.
  - assert ((0 <? Z.of_nat (length (item :: items))) = true) as -> by done.
    cbn [fst snd].
    destruct (sort.Sort algorithm (sortBy (item :: items)) (item :: items)) as [|pod sorted] eqn:Hsorted.
    { apply (f_equal length) in Hsorted. by rewrite Sort_length in Hsorted. }
    cbn. repeat split; try done; try lia.
    intros options w Hin. by apply list_elem_of_singleton in Hin.
Qed.

(** ** The further properties on the sample objects *)

Lemma results_well_shaped_witness :
  well_shaped ("Waiting for partitioned roll out to finish:2 out of 3 new pods has been updated..."
               +:+ nl, false, None).
Proof.
  apply (proj2 (proj2 (proj2 (proj2 (results_well_shaped plain_quote no_revision))))
               (inr (asts_partitioned 2)) 0).
  reflexivity.
Defined.

Lemma revision_read_by_deployment_only_witness :
  DeploymentStatusViewer_Status plain_quote (recorded_revision 2) (inr dep_rolled_out) 3
  = ("", false, Some (RevisionMismatch 3 2))
  /\ DeploymentStatusViewer_Status plain_quote (recorded_revision 2) (inr dep_rolled_out) (-1)
     = DeploymentStatusViewer_Status plain_quote (recorded_revision 2) (inr dep_rolled_out) 0.
Proof.
  destruct (revision_read_by_deployment_only plain_quote (recorded_revision 2))
    as (_ & _ & _ & _ & Hignored & Hmismatch & _).
  split.
  - apply Hmismatch; [reflexivity | reflexivity | discriminate].
  - apply Hignored; discriminate.
Defined.

Lemma deployment_done_iff_witness :
  done (DeploymentStatusViewer_Status plain_quote no_revision (inr dep_rolled_out) 0) = true.
Proof.
  apply (proj2 (deployment_done_iff plain_quote no_revision dep_rolled_out 0)).
  split; [left; discriminate|]. split; [discriminate|].
  split; [intros (c & Hc & _); discriminate Hc|].
  split; [intros replicas [= <-]; discriminate|].
  split; discriminate.
Defined.

Lemma daemonset_done_iff_witness :
  DaemonSetStatusViewer_Status plain_quote (inr (ds_rolling 1)) 0
  = ("Waiting for daemon set " +:+ plain_quote "agent"
     +:+ " rollout to finish: 1 out of 3 new pods have been updated..." +:+ nl, false, None).
Proof.
  apply (proj2 (daemonset_done_iff plain_quote (ds_rolling 1) 0)); [reflexivity | discriminate | reflexivity].
Defined.

Lemma statefulset_done_iff_witness :
  let r := StatefulSetStatusViewer_Status (inr sts_converged) 0 in
  done r = true /\ err r = None.
Proof.
  apply (proj2 (statefulset_done_iff sts_converged 0)).
  split; [reflexivity|]. split; [discriminate|]. split; [discriminate|].
  split; [intros replicas [= <-]; discriminate | reflexivity].
Defined.

Lemma cloneset_done_iff_witness :
  done (CloneSetStatusViewer_Status (inr cs_mid_transition) 0) = true.
Proof.
  apply (proj2 (cloneset_done_iff cs_mid_transition 0)).
  split; [intros [Hty | Hty]; discriminate Hty|].
  split; [discriminate|]. split; [discriminate|].
  intros replicas [= <-]. discriminate.
Defined.

Lemma advanced_statefulset_panics_iff_witness :
  AdvancedStatefulSetStatusViewer_Status (inr asts_without_subpolicy) 0 = Panic.
Proof.
  apply (proj2 (advanced_statefulset_panics_iff (inr asts_without_subpolicy) 0)).
  exists asts_without_subpolicy.
  split; [reflexivity|]. split; [reflexivity|]. split; [discriminate | reflexivity].
Defined.

Lemma advanced_statefulset_done_iff_witness :
  exists r, AdvancedStatefulSetStatusViewer_Status (inr (asts_partitioned 3)) 0 = Return r
            /\ done r = true.
Proof.
  apply (proj2 (advanced_statefulset_done_iff (asts_partitioned 3) 0)).
  split.
  - intros _ replicas [= <-].
    exists (kruiseappsv1beta1.RollingUpdateStatefulSetStrategy.mk (Some 2) false).
    split; [reflexivity|]. intros partition [= <-]. discriminate.
  - split; [discriminate|]. split; [discriminate|].
    intros replicas [= <-]. discriminate.
Defined.

Lemma readiness_and_partition_order_witness :
  StatefulSetStatusViewer_Status (inr sts_not_ready) 0
  = ("Waiting for 2 pods to be ready..." +:+ nl, false, None)
  /\ CloneSetStatusViewer_Status (inr cs_not_ready_stale) 0
     = ("Waiting for partitioned roll out to finish: 1 out of 3 new pods have been updated..."
        +:+ nl, false, None).
Proof.
  destruct readiness_and_partition_order as [Hsts Hcs]. split.
  - apply (Hsts sts_not_ready 0 5); (reflexivity || discriminate).
  - apply (Hcs cs_not_ready_stale 0 5 (intstr.FromInt 2)); (reflexivity || (left; reflexivity)).
Defined.

Lemma StatusViewerFor_allow_list_witness :
  StatusViewerFor (schema.GroupKind.mk "apps.kruise.io" "StatefulSet")
  = inr AdvancedStatefulSetStatusViewer
  /\ StatusViewerFor (schema.GroupKind.mk "extensions" "StatefulSet")
     <> inr StatefulSetStatusViewer.
Proof.
  split.
  - apply (proj2 (StatusViewerFor_allow_list _ AdvancedStatefulSetStatusViewer)).
    split; reflexivity.
  - intros Hfor.
    apply (proj1 (StatusViewerFor_allow_list _ StatefulSetStatusViewer)) in Hfor.
    destruct Hfor as [_ Hgroup]. discriminate Hgroup.
Defined.

Lemma SelectorsForObject_fails_iff_witness :
  (SelectorsForObject sample_LabelSelectorAsSelector sample_SelectorFromSet
     (CoreV1Service "default" "web" ∅)).2 <> None.
Proof.
  apply (proj2 (SelectorsForObject_fails_iff _ _ sample_LabelSelectorAsSelector
                  sample_SelectorFromSet (CoreV1Service "default" "web" ∅))).
  reflexivity.
Defined.

Lemma findEnv_first_match_witness :
  findEnv [corev1.EnvVar.mk "A" "1" None; corev1.EnvVar.mk "B" "2" None;
           corev1.EnvVar.mk "B" "3" None] "B"
  = (corev1.EnvVar.mk "B" "2" None, true).
Proof.
  apply (proj2 (proj1 (findEnv_first_match _ "B" (corev1.EnvVar.mk "B" "2" None)))).
  exists [corev1.EnvVar.mk "A" "1" None], [corev1.EnvVar.mk "B" "3" None].
  split; [reflexivity|]. split; [reflexivity|].
  intros Hin. apply list_elem_of_singleton in Hin. discriminate Hin.
Defined.

Lemma updateEnv_upsert_wins_witness :
  findEnv (updateEnv [corev1.EnvVar.mk "B" "2" None; corev1.EnvVar.mk "B" "3" None]
                     [corev1.EnvVar.mk "A" "1" None; corev1.EnvVar.mk "B" "9" None;
                      corev1.EnvVar.mk "B" "8" None] ["C"]) "B"
  = (corev1.EnvVar.mk "B" "9" None, true).
Proof.
  rewrite updateEnv_upsert_wins; [reflexivity | |].
  - apply list_elem_of_fmap. exists (corev1.EnvVar.mk "B" "9" None).
    split; [reflexivity|]. right. left.
  - intros Hin. apply list_elem_of_singleton in Hin. discriminate Hin.
Defined.

Lemma GetFirstPod_failures_witness :
  GetFirstPod sort.insertionSort
    (PodsGetter.mk (fun _ _ => inl (ClientError "forbidden"))
                   (fun _ _ => inl (ClientError "forbidden")))
    "default" "app=web" 20 newest_first
  = ([CallList "default" (metav1.ListOptions.mk "app=web" "")],
     (None, 0, Some (ClientError "forbidden")))
  /\ GetFirstPod sort.insertionSort (sample_client [] status_watch) "default" "app=web" 20 newest_first
     = ([CallList "default" (metav1.ListOptions.mk "app=web" "");
         CallWatch "default" (metav1.ListOptions.mk "app=web" "41");
         CallUntil 20; CallStop],
        (None, 0, Some NotAPodEvent)).
Proof.
  split.
  - apply (proj1 (GetFirstPod_failures sort.insertionSort _ "default" "app=web" 20 newest_first)).
    reflexivity.
  - destruct (proj2 (GetFirstPod_failures sort.insertionSort (sample_client [] status_watch)
                       "default" "app=web" 20 newest_first)
                    (corev1.PodList.mk "41" []) eq_refl eq_refl) as [_ Hevent].
    apply (Hevent status_watch
                  [watch.Event.mk watch.Bookmark (watch.NotPod "Pod");
                   watch.Event.mk watch.Modified (watch.NotPod "Status")]
                  watch.ChannelClosed
                  [watch.Event.mk watch.Bookmark (watch.NotPod "Pod")]
                  (watch.Event.mk watch.Modified (watch.NotPod "Status")) [] "Status");
      [reflexivity | reflexivity | reflexivity | repeat constructor | reflexivity | reflexivity].
Defined.
